(** * The SST element factory ([src/sst/core/factory.cc])

    A shallow embedding of [SST::Factory]: the port-pattern matcher
    [checkPort], the qualified-name parser [parseLoadName], the library
    loading functions, the introspection queries and the creation entry
    points, followed by the properties established about them. *)

From Stdlib Require Import Ascii String ZArith.
From stdpp Require Import gmap strings list fin_maps.

Local Open Scope string_scope.

(** ** C strings

    [std::string::c_str()] yields the characters of the string followed by
    one terminating zero byte.  A [const char *] into that buffer is modelled
    by the part of the buffer from the pointer onwards: dereferencing reads
    its head, incrementing drops it.  A pointer that has moved beyond the
    terminator has nothing left to read: dereferencing it is a read past the
    end of the buffer. *)

Definition NUL : ascii := Ascii.zero.

Definition c_str (s : string) : list ascii := list_ascii_of_string s ++ [NUL].

Definition deref (x : list ascii) : option ascii := head x.

(** [x++] *)
Definition incr (x : list ascii) : list ascii := tail x.

(** [isdigit] of <ctype.h> in the C locale. *)
Definition isdigit (c : ascii) : bool :=
  (48 <=? nat_of_ascii c)%nat && (nat_of_ascii c <=? 57)%nat.

(** What running a piece of [checkPort] can end in: a value, a read past the
    end of a buffer (undefined behaviour in C++), or an exhausted iteration
    budget of the model. *)
Inductive scan (A : Type) : Type :=
  | Got (a : A)
  | PastEnd
  | NoFuel.
Arguments Got {A} a.
Arguments PastEnd {A}.
Arguments NoFuel {A}.

#[global] Instance scan_ret : MRet scan := fun A a => Got a.

#[global] Instance scan_bind : MBind scan := fun A B k m =>
  match m with
  | Got a => k a
  | PastEnd => PastEnd
  | NoFuel => NoFuel
  end.

Definition read (x : list ascii) : scan ascii :=
  match deref x with
  | Some c => Got c
  | None => PastEnd
  end.

(** [while ( *x && ( *x != ')' ) ) x++;] *)
Fixpoint skip_name (x : list ascii) : scan (list ascii) :=
  match x with
  | [] => PastEnd
  | c :: x' =>
      if negb (Ascii.eqb c NUL) && negb (Ascii.eqb c ")") then skip_name x'
      else Got x
  end.

(** [while ( *y && isdigit( *y ) ) y++;] *)
Fixpoint eat_digits (y : list ascii) : scan (list ascii) :=
  match y with
  | [] => PastEnd
  | c :: y' =>
      if negb (Ascii.eqb c NUL) && isdigit c then eat_digits y'
      else Got y
  end.

(** The test [*x == '%' && ( *(x+1) == '(' || *(x+1) == 'd' )]. *)
Definition at_placeholder (x : list ascii) : scan bool :=
  c ← read x;
  if Ascii.eqb c "%" then
    c1 ← read (incr x);
    Got (Ascii.eqb c1 "(" || Ascii.eqb c1 "d")
  else Got false.

(** The body of the [if] of the loop: eat the [%d] or [%(var)d] of [x] and
    the digits of [y].  [inl b] is [return b;] from [checkPort]. *)
Definition eat_placeholder (x y : list ascii)
  : scan (bool + list ascii * list ascii) :=
  let x := incr x in
  c ← read x;
  x ← (if Ascii.eqb c "(" then x ← skip_name x; Got (incr x) else Got x);
  c ← read x;
  if negb (Ascii.eqb c "d") then Got (inl false)
  else
    let x := incr x in
    y ← eat_digits y;
    Got (inr (x, y)).

(** The [do { ... } while ( *x && *y );] loop and the two statements after
    it.  Every iteration moves [x] forward, so the iteration budget given by
    [checkPort] below is never used up ([checkPort_loop_fuel]). *)
Fixpoint checkPort_loop (fuel : nat) (x y : list ascii) : scan bool :=
  match fuel with
  | O => NoFuel
  | S fuel' =>
      ph ← at_placeholder x;
      r ← (if ph : bool then eat_placeholder x y else Got (inr (x, y)));
      match r with
      | inl b => Got b
      | inr (x, y) =>
          cx ← read x;
          cy ← read y;
          if negb (Ascii.eqb cx cy) then Got false
          else if Ascii.eqb cx NUL then Got true
          else
            let x := incr x in
            let y := incr y in
            cx ← read x;
            cy ← read y;
            if negb (Ascii.eqb cx NUL) && negb (Ascii.eqb cy NUL)
            then checkPort_loop fuel' x y
            else if negb (Ascii.eqb cx cy) then Got false
            else Got true
      end
  end.

(** [static bool checkPort(const std::string &def, const std::string &offered)] *)
Definition checkPort_buf (x y : list ascii) : scan bool :=
  c ← read x;
  c1 ← (if Ascii.eqb c "*" then read (incr x) else Got NUL);
  if Ascii.eqb c "*" && Ascii.eqb c1 NUL then Got true
  else checkPort_loop (length x) x y.

Definition checkPort (def offered : string) : scan bool :=
  checkPort_buf (c_str def) (c_str offered).

(** ** The element library information (ELI) database

    The registries live outside [factory.cc]; the factory only queries them.
    A database maps a library name to that library's table, which maps an
    element name to its entry: [getLibrary] and [getInfo] (or [getBuilder])
    return a null pointer, here [None], for a name that is not registered. *)

Record StatisticInfo : Type := mkStatisticInfo {
  stat_name : string;
  stat_enableLevel : Z;          (* uint8_t *)
  stat_units : string
}.

Record ElementInfo : Type := mkElementInfo {
  getParamNames : gset string;
  getPortnames : list string;
  getSubComponentSlots : list string;
  getValidStats : list StatisticInfo
}.

(** What a builder hands back: the object it built, with the objects it
    obtained from the factory while building it. *)
#[local] Unset Elimination Schemes.
Inductive Object : Type :=
  | Inst (product : string) (parts : list Object).
#[local] Set Elimination Schemes.

(** A builder is user code that receives the parameter container by
    reference and commonly calls back into the factory.  It is modelled by
    the sequence of creation calls it makes; each call is made either on the
    container the builder was given ([TheParams]) or on a container of the
    builder's own ([OwnParams]).  A builder reaches the allowed-key scopes
    only through these calls. *)
Inductive Construction : Type :=
  | ConsComponent (id : nat) (type : string)
  | ConsModule (type : string)
  | ConsModuleWithComponent (type : string) (comp : nat)
  | ConsSubComponent (type : string) (comp : nat).

Inductive ParamsArg : Type :=
  | TheParams
  | OwnParams (data : gmap string string).

Record Builder : Type := mkBuilder {
  product_name : string;
  script : list (Construction * ParamsArg)
}.

Record ELI : Type := mkELI {
  LoadedLibraries : gset string;
  componentInfo : gmap string (gmap string ElementInfo);
  subComponentInfo : gmap string (gmap string ElementInfo);
  moduleInfo : gmap string (gmap string ElementInfo);
  partitionerInfo : gmap string (gmap string ElementInfo);
  pythonModuleInfo : gmap string (gmap string ElementInfo);
  componentBuilders : gmap string (gmap string Builder);
  subComponentBuilders : gmap string (gmap string Builder);
  moduleBuilders : gmap string (gmap string Builder);
  moduleWithComponentBuilders : gmap string (gmap string Builder);
  (* partitioners and scripting bridges receive no parameter container:
     their builders are modelled as functions of their arguments *)
  partitionerBuilders :
    gmap string (gmap string (nat * nat → nat * nat → Z → Object));
  pythonModuleBuilders : gmap string (gmap string (string → Object))
}.

(** Modelled from the spec: [ELI::InfoDatabase::getLibrary] and the
    [getBuilderLibrary] functions are declared in elementinfo.h and the
    element base classes, which are not part of the sources at hand; the
    lookup of a library yields its table if the library is registered. *)
Definition getLibrary {V} (db : gmap string (gmap string V)) (name : string)
  : option (gmap string V) := db !! name.

(** Modelled from the spec: [getInfo] of a library's info table, declared in
    elementinfo.h; the lookup of an element yields its descriptor if the
    element is registered. *)
Definition getInfo {V} (lib : gmap string V) (elem : string) : option V :=
  lib !! elem.

(** Modelled from the spec: [getBuilder] of a library's builder table,
    declared in elementbuilder.h; the lookup of an element yields its
    builder if one is registered. *)
Definition getBuilder {V} (lib : gmap string V) (elem : string) : option V :=
  lib !! elem.

(** ** Parameter containers *)

Record Params : Type := mkParams {
  data : gmap string string;
  allowedKeys : list (gset string)
}.

(** Modelled from the spec: [Params::pushAllowedKeys] is declared in
    params.h, which is not part of the sources at hand; the allowed-key scope
    is a stack of key sets and this pushes one set onto it. *)
Definition pushAllowedKeys (keys : gset string) (p : Params) : Params :=
  {| data := data p; allowedKeys := keys :: allowedKeys p |}.

(** Modelled from the spec: [Params::popAllowedKeys] is declared in
    params.h, which is not part of the sources at hand; it removes the set
    pushed last. *)
Definition popAllowedKeys (p : Params) : Params :=
  {| data := data p; allowedKeys := tail (allowedKeys p) |}.

(** ** The state the factory works on *)

Inductive Message : Type :=
  | Output (text : string)
  | Cerr (subcomponents : option (gset string)) (components : gset string).

Inductive ScopeEvent : Type :=
  | Pushed (params : nat) (keys : gset string)
  | Popped (params : nat).

Record World : Type := mkWorld {
  (* members of Factory *)
  loaded_libraries : gset string;
  loadingComponentType : string;
  (* what the factory reaches through globals, pointers and references *)
  eli : ELI;
  linkMaps : gmap nat (list string);       (* allowed ports per component id *)
  heap : gmap nat Params;                  (* the Params objects, by address *)
  (* what the calls leave behind *)
  loaderCalls : list (string * bool);      (* calls of ElemLoader::loadLibrary *)
  messages : list Message;                 (* non-fatal output *)
  scopeEvents : list ScopeEvent            (* pushes and pops, in order *)
}.

Definition set_loaded_libraries (f : gset string → gset string) (w : World) :=
  mkWorld (f (loaded_libraries w)) (loadingComponentType w) (eli w)
    (linkMaps w) (heap w) (loaderCalls w) (messages w) (scopeEvents w).

Definition set_loadingComponentType (t : string) (w : World) :=
  mkWorld (loaded_libraries w) t (eli w)
    (linkMaps w) (heap w) (loaderCalls w) (messages w) (scopeEvents w).

Definition set_eli (e : ELI) (w : World) :=
  mkWorld (loaded_libraries w) (loadingComponentType w) e
    (linkMaps w) (heap w) (loaderCalls w) (messages w) (scopeEvents w).

Definition set_linkMaps (f : gmap nat (list string) → gmap nat (list string))
    (w : World) :=
  mkWorld (loaded_libraries w) (loadingComponentType w) (eli w)
    (f (linkMaps w)) (heap w) (loaderCalls w) (messages w) (scopeEvents w).

Definition set_heap (f : gmap nat Params → gmap nat Params) (w : World) :=
  mkWorld (loaded_libraries w) (loadingComponentType w) (eli w)
    (linkMaps w) (f (heap w)) (loaderCalls w) (messages w) (scopeEvents w).

Definition log_loaderCall (c : string * bool) (w : World) :=
  mkWorld (loaded_libraries w) (loadingComponentType w) (eli w)
    (linkMaps w) (heap w) (loaderCalls w ++ [c]) (messages w) (scopeEvents w).

Definition log_message (m : Message) (w : World) :=
  mkWorld (loaded_libraries w) (loadingComponentType w) (eli w)
    (linkMaps w) (heap w) (loaderCalls w) (messages w ++ [m]) (scopeEvents w).

Definition log_scopeEvent (e : ScopeEvent) (w : World) :=
  mkWorld (loaded_libraries w) (loadingComponentType w) (eli w)
    (linkMaps w) (heap w) (loaderCalls w) (messages w) (scopeEvents w ++ [e]).

(** The allowed-key scope of the container at an address. *)
Definition scope (w : World) (params : nat) : option (list (gset string)) :=
  allowedKeys <$> heap w !! params.

(** ** Outcomes

    A call returns, or ends the process through [Output::fatal], or runs
    into undefined behaviour, or, in the model only, runs out of the budget
    that bounds the nesting of builders. *)

Inductive Undefined : Type :=
  | NullDereference
  | ReadPastEnd.

Inductive outcome (A : Type) : Type :=
  | Ret (a : A) (w : World)
  | Fatal (msg : string) (w : World)
  | Undef (u : Undefined) (w : World)
  | OutOfFuel.
Arguments Ret {A} a w.
Arguments Fatal {A} msg w.
Arguments Undef {A} u w.
Arguments OutOfFuel {A}.

Definition M (A : Type) : Type := World → outcome A.

#[global] Instance M_ret : MRet M := fun A a w => Ret a w.

#[global] Instance M_bind : MBind M := fun A B k m w =>
  match m w with
  | Ret a w' => k a w'
  | Fatal msg w' => Fatal msg w'
  | Undef u w' => Undef u w'
  | OutOfFuel => OutOfFuel
  end.

Definition gets {A} (f : World → A) : M A := fun w => Ret (f w) w.

Definition modify (f : World → World) : M unit := fun w => Ret () (f w).

(** Modelled from the spec: [Output::fatal] is declared in output.h, which is
    not part of the sources at hand; the diagnostic sink prints the message
    and terminates the process. *)
Definition fatal {A} (msg : string) : M A := fun w => Fatal msg w.

Definition undefined {A} (u : Undefined) : M A := fun w => Undef u w.

Definition output (text : string) : M unit := modify (log_message (Output text)).

Definition lift_scan {A} (s : scan A) : M A :=
  match s with
  | Got a => mret a
  | PastEnd => undefined ReadPastEnd
  | NoFuel => fun _ => OutOfFuel
  end.

(** ** [Factory::parseLoadName] *)

(** [std::string::find_first_of] with a one-character set *)
Fixpoint find_first_of (c : ascii) (s : string) : option nat :=
  match s with
  | EmptyString => None
  | String a s' => if Ascii.eqb a c then Some O else S <$> find_first_of c s'
  end.

Definition empty_name_warning : string :=
  "Warning: got empty element library. You might have a missing parameter that causes a default empty string.".

Definition parseLoadName (wholename : string) : M (string * string) :=
  match find_first_of "." wholename with
  | None =>
      (if decide (wholename = "") then output empty_name_warning else mret ());;
      mret (wholename, wholename)
  | Some found =>
      let eli := substring 0 found wholename in
      let el := substring (S found) (String.length wholename - S found) wholename in
      mret (eli, el)
  end.

(** ** The factory *)

Section Factory.

(** [ElemLoader::loadLibrary(name, showErrors)] is external: it may
    register anything in the ELI database, and reports success or failure. *)
Variable elemLoader : string → bool → ELI → bool * ELI.

(** The default of the [showErrors] argument of [findLibrary], declared in
    factory.h, which is not part of the sources at hand. *)
Variable showErrors_default : bool.

(** [loader->loadLibrary(name, showErrors)] *)
Definition loader_loadLibrary (name : string) (showErrors : bool) : M bool :=
  e ← gets eli;
  let '(ok, e') := elemLoader name showErrors e in
  modify (log_loaderCall (name, showErrors));;
  modify (set_eli e');;
  mret ok.

(** [Factory::loadLibrary] *)
Definition loadLibrary (name : string) (showErrors : bool) : M bool :=
  loader_loadLibrary name showErrors;;
  isLoaded ← gets (λ w, bool_decide (name ∈ LoadedLibraries (eli w)));
  if negb isLoaded then mret false
  else
    modify (set_loaded_libraries (λ l, {[name]} ∪ l));;
    mret true.

(** [Factory::findLibrary]; the model is sequential, the recursive mutex
    the function holds is not represented. *)
Definition findLibrary (elemlib : string) (showErrors : bool) : M bool :=
  present ← gets (λ w, bool_decide (elemlib ∈ loaded_libraries w));
  if present : bool then mret true
  else loadLibrary elemlib showErrors.

(** [Factory::hasLibrary] *)
Definition hasLibrary (elemlib : string) : M bool :=
  findLibrary elemlib false.

(** [Factory::requireLibrary] *)
Definition requireLibrary (elemlib : string) : M unit :=
  if decide (elemlib = "sst") then mret ()
  else findLibrary elemlib true;; mret ().

(** [Factory::loadUnloadedLibraries], on the names in iteration order *)
Fixpoint loadUnloadedLibraries (lib_names : list string) : M unit :=
  match lib_names with
  | [] => mret ()
  | i :: rest =>
      findLibrary i showErrors_default;;
      loadUnloadedLibraries rest
  end.

(** [Factory::Factory]: the state of a new factory in a given environment *)
Definition newFactory (e : ELI) (lm : gmap nat (list string))
    (h : gmap nat Params) : World :=
  {| loaded_libraries := {["sst"]};
     loadingComponentType := "";
     eli := e; linkMaps := lm; heap := h;
     loaderCalls := []; messages := []; scopeEvents := [] |}.

(** [for ( auto p : *portNames ) if ( checkPort(p, port_name) ) return true;
    return false;] *)
Fixpoint scanPorts (portNames : list string) (port_name : string) : M bool :=
  match portNames with
  | [] => mret false
  | p :: rest =>
      ok ← lift_scan (checkPort p port_name);
      if ok : bool then mret true else scanPorts rest port_name
  end.

(** [Factory::isPortNameValid] *)
Definition isPortNameValid (type port_name : string) : M bool :=
  '(elemlib, elem) ← parseLoadName type;
  present ← gets (λ w, bool_decide (elemlib ∈ loaded_libraries w));
  (if present : bool then mret ()
   else findLibrary elemlib showErrors_default;; mret ());;
  lib ← gets (λ w, getLibrary (componentInfo (eli w)) elemlib);
  '(portNames, err) ←
    match lib with
    | Some lib =>
        match getInfo lib elem with
        | Some compInfo => mret (Some (getPortnames compInfo), None)
        | None => mret (None, None)
        end
    | None =>
        lib ← gets (λ w, getLibrary (subComponentInfo (eli w)) elemlib);
        match lib with
        | Some lib =>
            match getInfo lib elemlib with
            | Some subcompInfo => mret (Some (getPortnames subcompInfo), None)
            | None => mret (None, Some (dom lib))
            end
        | None => mret (None, None)
        end
    end;
  match portNames with
  | None =>
      match lib with
      | None => undefined NullDereference        (* lib->getMap() *)
      | Some lib =>
          modify (log_message (Cerr err (dom lib)));;
          fatal ("can't find requested component or subcomponent '"
                   +:+ elemlib +:+ "." +:+ elem +:+ "'")
      end
  | Some portNames => scanPorts portNames port_name
  end.

(** [for ( auto& item : info->getSubComponentSlots() )
      if ( item.name == slotName ) return true;] *)
Definition hasSlot (info : option ElementInfo) (slotName : string) : bool :=
  match info with
  | Some info => bool_decide (slotName ∈ getSubComponentSlots info)
  | None => false
  end.

(** [Factory::DoesSubComponentSlotExist] *)
Definition DoesSubComponentSlotExist (type slotName : string) : M bool :=
  '(elemlib, elem) ← parseLoadName type;
  requireLibrary elemlib;;
  compLib ← gets (λ w, getLibrary (componentInfo (eli w)) elemlib);
  match compLib with
  | Some compLib => mret (hasSlot (getInfo compLib elem) slotName)
  | None =>
      subLib ← gets (λ w, getLibrary (subComponentInfo (eli w)) elemlib);
      match subLib with
      | Some subLib => mret (hasSlot (getInfo subLib elem) slotName)
      | None =>
          fatal ("can't find requested component/subcomponent '"
                   +:+ type +:+ "'")
      end
  end.

(** [for ( auto& item : info->getValidStats() )
      if ( statisticName == item.name ) return item.enableLevel;] *)
Fixpoint findEnableLevel (stats : list StatisticInfo) (statisticName : string)
  : option Z :=
  match stats with
  | [] => None
  | item :: rest =>
      if decide (statisticName = stat_name item)
      then Some (stat_enableLevel item)
      else findEnableLevel rest statisticName
  end.

(** The body of [if (compLib) { ... return 0; }], the same for the
    component and the sub-component library. *)
Definition enableLevelIn (lib : gmap string ElementInfo)
    (elem statisticName : string) : Z :=
  match getInfo lib elem with
  | Some info =>
      match findEnableLevel (getValidStats info) statisticName with
      | Some level => level
      | None => 0
      end
  | None => 0
  end.

(** [Factory::GetComponentInfoStatisticEnableLevel] *)
Definition GetComponentInfoStatisticEnableLevel (type statisticName : string)
  : M Z :=
  compTypeToLoad ←
    (if decide (type = "") then gets loadingComponentType else mret type);
  '(elemlib, elem) ← parseLoadName compTypeToLoad;
  requireLibrary elemlib;;
  compLib ← gets (λ w, getLibrary (componentInfo (eli w)) elemlib);
  match compLib with
  | Some compLib => mret (enableLevelIn compLib elem statisticName)
  | None =>
      subLib ← gets (λ w, getLibrary (subComponentInfo (eli w)) elemlib);
      match subLib with
      | Some subLib => mret (enableLevelIn subLib elem statisticName)
      | None =>
          fatal ("can't find requested component '" +:+ type +:+ "'")
      end
  end.

(** *** The creation entry points *)

(** The chain of nested [if]s shared by the entry points: the library's
    info table, the element's info, the library's builder table, the
    builder.  Nothing is written between the four lookups. *)
Definition resolve {B} (infos : gmap string (gmap string ElementInfo))
    (builders : gmap string (gmap string B))
    (elemlib elem builderName : string) : option (ElementInfo * B) :=
  lib ← getLibrary infos elemlib;
  info ← getInfo lib elem;
  builderLib ← getLibrary builders elemlib;
  fact ← getBuilder builderLib builderName;
  Some (info, fact).

(** [params.pushAllowedKeys(keys)] on the container at an address *)
Definition params_pushAllowedKeys (params : nat) (keys : gset string)
  : M unit :=
  modify (set_heap (alter (pushAllowedKeys keys) params));;
  modify (log_scopeEvent (Pushed params keys)).

(** [params.popAllowedKeys()] on the container at an address *)
Definition params_popAllowedKeys (params : nat) : M unit :=
  modify (set_heap (alter popAllowedKeys params));;
  modify (log_scopeEvent (Popped params)).

(** [Simulation::getSimulation()->getComponentLinkMap(id)] followed by
    [lm->setAllowedPorts(...)]; an id without link map gives a null [lm]. *)
Definition setAllowedPorts (id : nat) (ports : list string) : M unit :=
  lm ← gets (λ w, linkMaps w !! id);
  match lm with
  | None => undefined NullDereference
  | Some _ => modify (set_linkMaps <[id := ports]>)
  end.

Section EntryPoints.

(** [fact->create(..., params)]: running a builder on a container.  The
    other arguments of a builder (the component id, the owning component)
    have no part in which calls it makes. *)
Variable create : Builder → nat → M Object.

(** [Factory::CreateComponent] *)
Definition CreateComponent (id : nat) (type : string) (params : nat)
  : M Object :=
  '(elemlib, elem) ← parseLoadName type;
  requireLibrary elemlib;;
  found ← gets (λ w, resolve (componentInfo (eli w))
                       (componentBuilders (eli w)) elemlib elem elem);
  match found with
  | Some (compInfo, fact) =>
      setAllowedPorts id (getPortnames compInfo);;
      modify (set_loadingComponentType type);;
      params_pushAllowedKeys params (getParamNames compInfo);;
      ret ← create fact params;
      params_popAllowedKeys params;;
      modify (set_loadingComponentType "");;
      mret ret
  | None => fatal ("can't find requested component '" +:+ type +:+ "'")
  end.

Definition empty_module_error : string :=
  "Error: Core attempted to load an empty module name, did you miss a module string in your input deck?".

(** [Factory::CreateModule] *)
Definition CreateModule (type : string) (params : nat) : M Object :=
  (if decide ("" = type) then fatal empty_module_error else mret ());;
  '(elemlib, elem) ← parseLoadName type;
  requireLibrary elemlib;;
  found ← gets (λ w, resolve (moduleInfo (eli w))
                       (moduleBuilders (eli w)) elemlib elem elem);
  match found with
  | Some (info, fact) =>
      params_pushAllowedKeys params (getParamNames info);;
      ret ← create fact params;
      params_popAllowedKeys params;;
      mret ret
  | None => fatal ("can't find requested module '" +:+ type +:+ "'")
  end.

(** [Factory::CreateModuleWithComponent] *)
Definition CreateModuleWithComponent (type : string) (comp : nat)
    (params : nat) : M Object :=
  '(elemlib, elem) ← parseLoadName type;
  requireLibrary elemlib;;
  found ← gets (λ w, resolve (moduleInfo (eli w))
                       (moduleWithComponentBuilders (eli w))
                       elemlib elem elem);
  match found with
  | Some (info, fact) =>
      params_pushAllowedKeys params (getParamNames info);;
      ret ← create fact params;
      params_popAllowedKeys params;;
      mret ret
  | None => fatal ("can't find requested module '" +:+ type +:+ "'")
  end.

(** [Factory::CreateSubComponent] *)
Definition CreateSubComponent (type : string) (comp : nat) (params : nat)
  : M Object :=
  '(elemlib, elem) ← parseLoadName type;
  requireLibrary elemlib;;
  found ← gets (λ w, resolve (subComponentInfo (eli w))
                       (subComponentBuilders (eli w)) elemlib elem elem);
  match found with
  | Some (info, fact) =>
      params_pushAllowedKeys params (getParamNames info);;
      ret ← create fact params;
      params_popAllowedKeys params;;
      mret ret
  | None => fatal ("can't find requested subcomponent '" +:+ type +:+ "'")
  end.

End EntryPoints.

(** [Factory::CreatePartitioner] *)
Definition CreatePartitioner (name : string) (total_ranks my_rank : nat * nat)
    (verbosity : Z) : M Object :=
  '(elemlib, elem) ← parseLoadName name;
  requireLibrary elemlib;;
  found ← gets (λ w, resolve (partitionerInfo (eli w))
                       (partitionerBuilders (eli w)) elemlib elem elem);
  match found with
  | Some (_, fact) => mret (fact total_ranks my_rank verbosity)
  | None =>
      fatal ("Error: Unable to find requested partitioner '" +:+ name
               +:+ "', check --help for information on partitioners.")
  end.

(** [Factory::getPythonModule]; [None] is the null pointer. *)
Definition getPythonModule (name : string) : M (option Object) :=
  '(elemlib, elem) ← parseLoadName name;
  found ← gets (λ w, resolve (pythonModuleInfo (eli w))
                       (pythonModuleBuilders (eli w)) elemlib elem elemlib);
  match found with
  | Some (_, fact) => mret (Some (fact elemlib))
  | None => mret None
  end.

(** *** Builders calling back into the factory *)

(** A container of the builder's own, at an address not in use. *)
Definition newParams (d : gmap string string) : M nat :=
  a ← gets (λ w, fresh (dom (heap w)));
  modify (set_heap <[a := mkParams d []]>);;
  mret a.

(** The calls of a builder, in order; [construct] runs one creation call. *)
Fixpoint run_script (construct : Construction → nat → M Object)
    (steps : list (Construction * ParamsArg)) (params : nat)
  : M (list Object) :=
  match steps with
  | [] => mret []
  | (c, arg) :: rest =>
      p ← match arg with
          | TheParams => mret params
          | OwnParams d => newParams d
          end;
      i ← construct c p;
      others ← run_script construct rest params;
      mret (i :: others)
  end.

(** A creation call with the builders it reaches; [fuel] bounds how deep
    builders may nest. *)
Fixpoint construct (fuel : nat) (c : Construction) (params : nat)
  : M Object :=
  match fuel with
  | O => fun _ => OutOfFuel
  | S fuel' =>
      let create (b : Builder) (params : nat) : M Object :=
        parts ← run_script (construct fuel') (script b) params;
        mret (Inst (product_name b) parts) in
      match c with
      | ConsComponent id type => CreateComponent create id type params
      | ConsModule type => CreateModule create type params
      | ConsModuleWithComponent type comp =>
          CreateModuleWithComponent create type comp params
      | ConsSubComponent type comp =>
          CreateSubComponent create type comp params
      end
  end.

End Factory.

(** ** The remaining functions of the factory *)

Section Introspection.

Variable elemLoader : string → bool → ELI → bool * ELI.
Variable showErrors_default : bool.

(** [info->getStatnames()], declared in elementinfo.h, which is not part of
    the sources at hand: the names under which the statistics of an element
    are registered. *)
Variable getStatnames : ElementInfo → list string.

(** The first lines of the statistic queries: an empty type stands for the
    type of the component under construction. *)
Definition compTypeToLoad (type : string) : M string :=
  if decide (type = "") then gets loadingComponentType else mret type.

(** [for ( auto& item : info->getStatnames() )
      if ( statisticName == item ) return true;
    return false;] *)
Fixpoint hasStatname (names : list string) (statisticName : string) : bool :=
  match names with
  | [] => false
  | item :: rest =>
      if decide (statisticName = item) then true
      else hasStatname rest statisticName
  end.

(** [Factory::DoesComponentInfoStatisticNameExist] *)
Definition DoesComponentInfoStatisticNameExist (type statisticName : string)
  : M bool :=
  toLoad ← compTypeToLoad type;
  '(elemlib, elem) ← parseLoadName toLoad;
  requireLibrary elemLoader elemlib;;
  lib ← gets (λ w, getLibrary (componentInfo (eli w)) elemlib);
  match lib ≫= (λ lib, getInfo lib elem) with
  | Some info => mret (hasStatname (getStatnames info) statisticName)
  | None => fatal ("can't find requested component '" +:+ type +:+ "'")
  end.

(** [Factory::DoesSubComponentInfoStatisticNameExist] *)
Definition DoesSubComponentInfoStatisticNameExist
    (type statisticName : string) : M bool :=
  toLoad ← compTypeToLoad type;
  '(elemlib, elem) ← parseLoadName toLoad;
  requireLibrary elemLoader elemlib;;
  lib ← gets (λ w, getLibrary (subComponentInfo (eli w)) elemlib);
  match lib ≫= (λ lib, getInfo lib elem) with
  | Some info => mret (hasStatname (getStatnames info) statisticName)
  | None => fatal ("can't find requested subcomponent '" +:+ type +:+ "'")
  end.

(** [for ( auto& item : info->getValidStats() )
      if ( statisticName == item.name ) return item.units;] *)
Fixpoint findUnits (stats : list StatisticInfo) (statisticName : string)
  : option string :=
  match stats with
  | [] => None
  | item :: rest =>
      if decide (statisticName = stat_name item) then Some (stat_units item)
      else findUnits rest statisticName
  end.

(** [Factory::GetComponentInfoStatisticUnits].  The function returns a
    [std::string]; its [return 0;] constructs that string from a null
    pointer, which reads through the pointer. *)
Definition GetComponentInfoStatisticUnits (type statisticName : string)
  : M string :=
  toLoad ← compTypeToLoad type;
  '(elemlib, elem) ← parseLoadName toLoad;
  present ← gets (λ w, bool_decide (elemlib ∈ loaded_libraries w));
  (if present : bool then mret ()
   else findLibrary elemLoader elemlib showErrors_default;; mret ());;
  compLib ← gets (λ w, getLibrary (componentInfo (eli w)) elemlib);
  match compLib with
  | Some compLib =>
      match getInfo compLib elem
            ≫= (λ info, findUnits (getValidStats info) statisticName) with
      | Some units => mret units
      | None => undefined NullDereference
      end
  | None => fatal ("can't find requested component '" +:+ type +:+ "'")
  end.

(** [Factory::RequireEvent] *)
Definition RequireEvent (eventname : string) : M unit :=
  '(elemlib, elem) ← parseLoadName eventname;
  requireLibrary elemLoader elemlib.

(** [Factory::getLoadedLibraryNames]; the set passed by reference is
    returned. *)
Definition getLoadedLibraryNames (lib_names : gset string)
  : M (gset string) :=
  loaded ← gets loaded_libraries;
  mret (lib_names ∪ loaded).

(** [Factory::notFound] *)
Definition notFound (baseName type : string) : M unit :=
  fatal ("can't find requested element library '" +:+ baseName
           +:+ "' with element type '" +:+ type +:+ "'").

End Introspection.

(** ** Port patterns as the specification describes them

    The definitions of this part follow the words of the specification, not
    the code; the properties below compare [checkPort] with them. *)

(** A pattern is a sequence of literal characters and digit-run
    placeholders, written [%d] or [%(name)d]. *)
Inductive Token : Type :=
  | Lit (c : ascii)
  | Digits (name : option string).

Definition render_token (t : Token) : list ascii :=
  match t with
  | Lit c => [c]
  | Digits None => ["%"; "d"]%char
  | Digits (Some n) => ("%" :: "(" :: list_ascii_of_string n ++ [")"; "d"])%char
  end.

Definition render_chars (p : list Token) : list ascii :=
  flat_map render_token p.

(** The pattern string a token sequence stands for. *)
Definition render (p : list Token) : string :=
  string_of_list_ascii (render_chars p).

(** The candidate without its leading run of decimal digits. *)
Fixpoint drop_digits (y : list ascii) : list ascii :=
  match y with
  | [] => []
  | c :: y' => if isdigit c then drop_digits y' else y
  end.

(** The matcher of the specification: a literal matches itself, a
    placeholder matches the run of consecutive digits at its position, and
    both pattern and candidate must end together.  The specification leaves
    open whether a placeholder must take at least one digit; [nonempty]
    selects the reading. *)
Fixpoint matchPort_spec (nonempty : bool) (p : list Token) (y : list ascii)
  : bool :=
  match p with
  | [] => bool_decide (y = [])
  | Lit c :: p' =>
      match y with
      | [] => false
      | c' :: y' => Ascii.eqb c c' && matchPort_spec nonempty p' y'
      end
  | Digits _ :: p' =>
      let y' := drop_digits y in
      (negb nonempty || negb (length y' =? length y)%nat)
      && matchPort_spec nonempty p' y'
  end.


(** Tokens that render to what they stand for: a literal is neither the
    terminator nor the marker character, a placeholder name contains neither
    the terminator nor a closing parenthesis. *)
Definition wf_token (t : Token) : Prop :=
  match t with
  | Lit c => c ≠ NUL ∧ c ≠ "%"%char
  | Digits None => True
  | Digits (Some n) =>
      (NUL ∉ list_ascii_of_string n) ∧ (")"%char ∉ list_ascii_of_string n)
  end.

(** A well-formed pattern other than the wildcard ["*"]. *)
Definition wf_pattern (p : list Token) : Prop :=
  Forall wf_token p ∧ p ≠ [Lit "*"].

(** No placeholder is directly followed by another one. *)
Fixpoint adjacent_free (p : list Token) : Prop :=
  match p with
  | [] => True
  | t :: p' =>
      match t, p' with
      | Digits _, Digits _ :: _ => False
      | _, _ => adjacent_free p'
      end
  end.

(** What the loop of [checkPort] computes, told on tokens: [compare_tokens]
    is the loop from its comparison [*x != *y] on, [scan_tokens] a whole
    iteration.  A placeholder that directly follows another one is compared
    as the character ['%']. *)
Fixpoint compare_tokens (p : list Token) (y : list ascii) : bool :=
  match p with
  | [] => bool_decide (y = [])
  | Digits _ :: _ => false
  | Lit c :: p' =>
      match y with
      | [] => false
      | c' :: y' =>
          Ascii.eqb c c' &&
          (match p', y' with
           | [], [] => true
           | [], _ :: _ => false
           | _ :: _, [] => false
           | Digits _ :: p'', _ :: _ => compare_tokens p'' (drop_digits y')
           | Lit _ :: _, _ :: _ => compare_tokens p' y'
           end)
      end
  end.

Definition scan_tokens (p : list Token) (y : list ascii) : bool :=
  match p with
  | Digits _ :: p' => compare_tokens p' (drop_digits y)
  | _ => compare_tokens p y
  end.

(** [checkPort_loop] from [if ( *x != *y ) return false;] on. *)
Definition checkPort_compare (fuel : nat) (x y : list ascii) : scan bool :=
  cx ← read x;
  cy ← read y;
  if negb (Ascii.eqb cx cy) then Got false
  else if Ascii.eqb cx NUL then Got true
  else
    let x := incr x in
    let y := incr y in
    cx ← read x;
    cy ← read y;
    if negb (Ascii.eqb cx NUL) && negb (Ascii.eqb cy NUL)
    then checkPort_loop fuel x y
    else if negb (Ascii.eqb cx cy) then Got false
    else Got true.

(** ** Notions the properties are stated with *)

(** The state a call leaves behind when it returns. *)
Definition world_after {A} (o : outcome A) : option World :=
  match o with
  | Ret _ w => Some w
  | _ => None
  end.

(** The ways a caller asks for a library by name. *)
Inductive LibraryRequest : Type :=
  | ByFindLibrary (showErrors : bool)
  | ByRequireLibrary.

Definition request (elemLoader : string → bool → ELI → bool * ELI)
    (r : LibraryRequest) (name : string) : M unit :=
  match r with
  | ByFindLibrary showErrors => findLibrary elemLoader name showErrors;; mret ()
  | ByRequireLibrary => requireLibrary elemLoader name
  end.

(** The first two steps of every creation entry point but
    [getPythonModule]: parse the name, require the library. *)
Definition prepare (elemLoader : string → bool → ELI → bool * ELI)
    (type : string) : M (string * string) :=
  '(elemlib, elem) ← parseLoadName type;
  requireLibrary elemLoader elemlib;;
  mret (elemlib, elem).

(** Pushes and pops that are matched and strictly nested: every push is
    closed by one pop of the same container, after everything pushed in
    between has been popped. *)
Inductive balanced : list ScopeEvent → Prop :=
  | balanced_nil : balanced []
  | balanced_app t1 t2 : balanced t1 → balanced t2 → balanced (t1 ++ t2)%list
  | balanced_nest params keys t :
      balanced t →
      balanced (Pushed params keys :: t ++ [Popped params])%list.

(** A call that, when it returns, leaves the allowed-key scope of every
    existing container as it found it, having pushed and popped in a
    balanced way. *)
Definition scope_neutral {A} (m : M A) : Prop :=
  ∀ w v w', m w = Ret v w' →
    (∀ a, a ∈ dom (heap w) → scope w' a = scope w a)
    ∧ ∃ t, scopeEvents w' = (scopeEvents w ++ t)%list ∧ balanced t.

(** A call that, when it returns, has removed nothing from the set of
    loaded libraries. *)
Definition grows {A} (m : M A) : Prop :=
  ∀ w v w', m w = Ret v w' → loaded_libraries w ⊆ loaded_libraries w'.

(** The separator occurs in a name. *)
Definition has_separator (s : string) : Prop :=
  "."%char ∈ list_ascii_of_string s.

#[global] Instance has_separator_dec s : Decision (has_separator s).
Proof. unfold has_separator. apply _. Defined.

(** The first character of a rendered pattern. *)
Definition first_char (p : list Token) : ascii :=
  match p with
  | [] => NUL
  | Lit c :: _ => c
  | Digits _ :: _ => "%"
  end.

(** The pattern does not start with a placeholder. *)
Definition literal_head (p : list Token) : Prop :=
  match p with
  | Digits _ :: _ => False
  | _ => True
  end.

(** The state after the call of the external loader. *)
Definition after_loader (elemLoader : string → bool → ELI → bool * ELI)
    (name : string) (showErrors : bool) (w : World) : World :=
  set_eli (elemLoader name showErrors (eli w)).2
    (log_loaderCall (name, showErrors) w).

(** Every call into the factory. *)
Inductive FactoryCall : Type :=
  | CallLoadLibrary (name : string) (showErrors : bool)
  | CallFindLibrary (name : string) (showErrors : bool)
  | CallHasLibrary (name : string)
  | CallRequireLibrary (name : string)
  | CallLoadUnloadedLibraries (lib_names : list string)
  | CallIsPortNameValid (type port_name : string)
  | CallDoesSubComponentSlotExist (type slotName : string)
  | CallGetComponentInfoStatisticEnableLevel (type statisticName : string)
  | CallCreate (fuel : nat) (c : Construction) (params : nat)
  | CallCreatePartitioner (name : string) (total_ranks my_rank : nat * nat)
      (verbosity : Z)
  | CallGetPythonModule (name : string).

(** The state a call into the factory returns in, if it returns. *)
Definition call_result (elemLoader : string → bool → ELI → bool * ELI)
    (showErrors_default : bool) (c : FactoryCall) (w : World)
  : option World :=
  match c with
  | CallLoadLibrary name showErrors =>
      world_after (loadLibrary elemLoader name showErrors w)
  | CallFindLibrary name showErrors =>
      world_after (findLibrary elemLoader name showErrors w)
  | CallHasLibrary name => world_after (hasLibrary elemLoader name w)
  | CallRequireLibrary name => world_after (requireLibrary elemLoader name w)
  | CallLoadUnloadedLibraries lib_names =>
      world_after
        (loadUnloadedLibraries elemLoader showErrors_default lib_names w)
  | CallIsPortNameValid type port_name =>
      world_after
        (isPortNameValid elemLoader showErrors_default type port_name w)
  | CallDoesSubComponentSlotExist type slotName =>
      world_after (DoesSubComponentSlotExist elemLoader type slotName w)
  | CallGetComponentInfoStatisticEnableLevel type statisticName =>
      world_after
        (GetComponentInfoStatisticEnableLevel elemLoader type statisticName w)
  | CallCreate fuel c params =>
      world_after (construct elemLoader fuel c params w)
  | CallCreatePartitioner name total_ranks my_rank verbosity =>
      world_after
        (CreatePartitioner elemLoader name total_ranks my_rank verbosity w)
  | CallGetPythonModule name => world_after (getPythonModule name w)
  end.

(** The state in which a builder is entered: the declared parameter names
    pushed on the container. *)
Definition pushed (params : nat) (keys : gset string) (w : World) : World :=
  log_scopeEvent (Pushed params keys)
    (set_heap (alter (pushAllowedKeys keys) params) w).

(** The state a creation call leaves when its builder has returned. *)
Definition popped (params : nat) (w : World) : World :=
  log_scopeEvent (Popped params) (set_heap (alter popAllowedKeys params) w).

(** ** Sample environments *)

(** A search path on which nothing is found. *)
Definition no_libraries : string → bool → ELI → bool * ELI :=
  fun _ _ e => (false, e).

Definition empty_ELI : ELI := mkELI ∅ ∅ ∅ ∅ ∅ ∅ ∅ ∅ ∅ ∅ ∅ ∅.

(** A loader that registers the name it is asked for, and reports failure
    all the same. *)
Definition registering_loader : string → bool → ELI → bool * ELI :=
  fun name _ e =>
    (false,
     mkELI ({[name]} ∪ LoadedLibraries e) (componentInfo e)
       (subComponentInfo e) (moduleInfo e) (partitionerInfo e)
       (pythonModuleInfo e) (componentBuilders e) (subComponentBuilders e)
       (moduleBuilders e) (moduleWithComponentBuilders e)
       (partitionerBuilders e) (pythonModuleBuilders e)).

(** A factory that has loaded the library [merlin]. *)
Definition merlin_loaded : World :=
  {| loaded_libraries := {["sst"; "merlin"]};
     loadingComponentType := "";
     eli := mkELI {["merlin"]} ∅ ∅ ∅ ∅ ∅ ∅ ∅ ∅ ∅ ∅ ∅;
     linkMaps := ∅; heap := ∅;
     loaderCalls := [("merlin", true)]; messages := []; scopeEvents := [] |}.

(** A library with a component [Cache] and a sub-component [prefetcher]. *)
Definition cache_info : ElementInfo :=
  mkElementInfo {["size"]} ["cpu_link_%d"; "mem_link"] ["prefetcher"]
    [mkStatisticInfo "misses" 2 "count"].

Definition prefetcher_info : ElementInfo :=
  mkElementInfo {["degree"]} ["pf_port"] []
    [mkStatisticInfo "hits" 3 "count"].

Definition memHierarchy_loaded : World :=
  {| loaded_libraries := {["sst"; "memHierarchy"]};
     loadingComponentType := "";
     eli := mkELI {["memHierarchy"]}
              {["memHierarchy" := {["Cache" := cache_info]}]}
              {["memHierarchy" := {["prefetcher" := prefetcher_info]}]}
              ∅ ∅ ∅ ∅ ∅ ∅ ∅ ∅ ∅;
     linkMaps := ∅; heap := ∅;
     loaderCalls := [("memHierarchy", true)]; messages := [];
     scopeEvents := [] |}.

(** A library of sub-components only, one of them named like the library. *)
Definition pf_info : ElementInfo := mkElementInfo ∅ ["a"] [] [].

Definition stride_info : ElementInfo :=
  mkElementInfo ∅ ["b"] [] [mkStatisticInfo "issued" 4 "count"].

Definition pf_loaded : World :=
  {| loaded_libraries := {["sst"; "pf"]};
     loadingComponentType := "";
     eli := mkELI {["pf"]} ∅
              {["pf" := {["pf" := pf_info; "stride" := stride_info]}]}
              ∅ ∅ ∅ ∅ ∅ ∅ ∅ ∅ ∅;
     linkMaps := ∅; heap := ∅;
     loaderCalls := [("pf", true)]; messages := []; scopeEvents := [] |}.

(** A library that registers a scripting bridge without a builder for it. *)
Definition merlin_python : World :=
  {| loaded_libraries := {["sst"; "merlin"]};
     loadingComponentType := "";
     eli := mkELI {["merlin"]} ∅ ∅ ∅ ∅
              {["merlin" := {["merlin" := mkElementInfo ∅ [] [] []]}]}
              ∅ ∅ ∅ ∅ ∅ {["merlin" := ∅]};
     linkMaps := ∅; heap := ∅;
     loaderCalls := [("merlin", true)]; messages := []; scopeEvents := [] |}.

(** A library whose component builds a sub-component on the container it
    was given; that one builds another sub-component on the same container,
    and a module on a container of its own. *)
Definition net_ELI : ELI :=
  mkELI {["net"]}
    {["net" := {["nic" := mkElementInfo {["id"]} ["port%d"] ["router"] []]}]}
    {["net" := {["router" := mkElementInfo {["radix"]} [] ["leaf"] [];
                 "leaf" := mkElementInfo {["depth"]} [] [] []]}]}
    {["net" := {["arbiter" := mkElementInfo {["policy"]} [] [] []]}]}
    ∅ ∅
    {["net" := {["nic" :=
       mkBuilder "nic" [(ConsSubComponent "net.router" 7, TheParams)]]}]}
    {["net" := {["router" :=
       mkBuilder "router" [(ConsSubComponent "net.leaf" 7, TheParams);
                           (ConsModule "net.arbiter", OwnParams ∅)];
                 "leaf" := mkBuilder "leaf" []]}]}
    {["net" := {["arbiter" := mkBuilder "arbiter" []]}]}
    ∅ ∅ ∅.

Definition net_world : World :=
  {| loaded_libraries := {["sst"; "net"]};
     loadingComponentType := "";
     eli := net_ELI;
     linkMaps := {[7 := []]};
     heap := {[0 := mkParams ∅ [{["top"]}]]};
     loaderCalls := [("net", true)]; messages := []; scopeEvents := [] |}.

(** A library whose scripting bridge is described under the element name
    [topo] and built by the builder registered under the library name. *)
Definition bridge_world : World :=
  {| loaded_libraries := {["sst"; "merlin"]};
     loadingComponentType := "";
     eli := mkELI {["merlin"]} ∅ ∅ ∅ ∅
              {["merlin" := {["topo" := mkElementInfo ∅ [] [] []]}]}
              ∅ ∅ ∅ ∅ ∅
              {["merlin" := {["merlin" := λ name, Inst name []]}]};
     linkMaps := ∅; heap := ∅;
     loaderCalls := [("merlin", true)]; messages := []; scopeEvents := [] |}.

(** A builder that builds its object without calling the factory. *)
Definition plain_create (b : Builder) (params : nat) : M Object :=
  mret (Inst (product_name b) []).

(** The statistic names of an element as the names of its statistics. *)
Definition names_of_stats (info : ElementInfo) : list string :=
  stat_name <$> getValidStats info.

(** * Properties *)

Local Open Scope list_scope.

#[local] Arguments Ascii.eqb : simpl never.

(** ** The qualified-name parser *)

Lemma find_first_of_None c s :
  find_first_of c s = None ↔ c ∉ list_ascii_of_string s.
Proof.
  induction s as [|a s IH]; simpl.
  - split; [intros _; apply not_elem_of_nil | done].
  - rewrite not_elem_of_cons. destruct (Ascii.eqb_spec a c) as [->|Hne].
    + split; [done | intros [? _]; done].
    + destruct (find_first_of c s); simpl.
      * split; [done | intros [_ H]; by apply IH in H].
      * split; [intros _; split; [congruence | by apply IH] | done].
Qed.

Lemma find_first_of_app c a s :
  c ∉ list_ascii_of_string a →
  find_first_of c (a +:+ String c s) = Some (String.length a).
Proof.
  induction a as [|x a IH]; simpl; intros Hc.
  - by rewrite Ascii.eqb_refl.
  - apply not_elem_of_cons in Hc as [Hx Hc].
    destruct (Ascii.eqb_spec x c) as [->|_]; [done|].
    by rewrite IH.
Qed.

Lemma substring_prefix a s : substring 0 (String.length a) (a +:+ s) = a.
Proof.
  induction a as [|x a IH]; simpl.
  - by destruct s.
  - by rewrite IH.
Qed.

Lemma substring_all s : substring 0 (String.length s) s = s.
Proof. induction s as [|x s IH]; simpl; [done | by rewrite IH]. Qed.

Lemma substring_suffix a c s m :
  substring (S (String.length a)) m (a +:+ String c s) = substring 0 m s.
Proof. induction a as [|x a IH]; simpl; [done | by rewrite <- IH]. Qed.

Lemma length_app_String a c s :
  (String.length (a +:+ String c s) - S (String.length a))%nat = String.length s.
Proof. induction a as [|x a IH]; simpl; [lia | exact IH]. Qed.

(** Every name either has no separator or splits at its first one. *)
Lemma name_shape (s : string) :
  ¬ has_separator s ∨
  ∃ a b, s = a +:+ "." +:+ b ∧ ¬ has_separator a.
Proof.
  unfold has_separator. induction s as [|x s IH]; simpl.
  - left. apply not_elem_of_nil.
  - destruct (Ascii.eqb_spec x ".") as [->|Hne].
    + right. exists "", s. split; [done | apply not_elem_of_nil].
    + destruct IH as [IH | (a & b & -> & Ha)].
      * left. rewrite not_elem_of_cons. done.
      * right. exists (String x a), b. split; [done|].
        simpl. rewrite not_elem_of_cons. done.
Qed.



(** ** The port-pattern matcher *)

Lemma c_str_render p : c_str (render p) = render_chars p ++ [NUL].
Proof. unfold c_str, render. by rewrite list_ascii_of_string_of_list_ascii. Qed.

Lemma read_cons c x : read (c :: x) = Got c.
Proof. reflexivity. Qed.

Lemma read_end (y : list ascii) : read (y ++ [NUL]) = Got (hd NUL y).
Proof. by destruct y. Qed.

Lemma eat_digits_end (y : list ascii) :
  eat_digits (y ++ [NUL]) = Got (drop_digits y ++ [NUL]).
Proof.
  induction y as [|c y IH]; simpl; [done|].
  destruct (Ascii.eqb_spec c NUL) as [->|Hc]; simpl; [done|].
  destruct (isdigit c); [exact IH | done].
Qed.

Lemma skip_name_close (n rest : list ascii) :
  NUL ∉ n → ")"%char ∉ n →
  skip_name (n ++ ")"%char :: rest) = Got (")"%char :: rest).
Proof.
  induction n as [|c n IH]; simpl; intros Hz Hp.
  - done.
  - apply not_elem_of_cons in Hz as [Hz1 Hz], Hp as [Hp1 Hp].
    destruct (Ascii.eqb_spec c NUL) as [->|_]; [done|].
    destruct (Ascii.eqb_spec c ")") as [->|_]; [done|].
    simpl. by apply IH.
Qed.

(** An unterminated name is scanned up to the terminator of the pattern. *)
Lemma skip_name_open (n : list ascii) :
  NUL ∉ n → ")"%char ∉ n → skip_name (n ++ [NUL]) = Got [NUL].
Proof.
  induction n as [|c n IH]; simpl; intros Hz Hp.
  - done.
  - apply not_elem_of_cons in Hz as [Hz1 Hz], Hp as [Hp1 Hp].
    destruct (Ascii.eqb_spec c NUL) as [->|_]; [done|].
    destruct (Ascii.eqb_spec c ")") as [->|_]; [done|].
    simpl. by apply IH.
Qed.

Lemma drop_digits_subseteq (y : list ascii) : drop_digits y ⊆ y.
Proof.
  induction y as [|c y IH]; simpl; [done|].
  destruct (isdigit c); [|done].
  intros a Ha. right. by apply IH.
Qed.

Lemma drop_digits_idemp (y : list ascii) :
  drop_digits (drop_digits y) = drop_digits y.
Proof.
  induction y as [|c y IH]; simpl; [done|].
  destruct (isdigit c) eqn:E; [done|]. simpl. by rewrite E.
Qed.

Lemma read_buf p : read (render_chars p ++ [NUL]) = Got (first_char p).
Proof. destruct p as [|[c|[n|]] p]; reflexivity. Qed.

Lemma first_char_NUL p : Forall wf_token p → first_char p = NUL → p = [].
Proof.
  destruct p as [|[c|n] p]; [done| |done].
  intros Hwf. apply Forall_cons in Hwf as [[Hc _] _]. simpl. done.
Qed.

Lemma render_chars_cons t p :
  render_chars (t :: p) ++ [NUL] = render_token t ++ render_chars p ++ [NUL].
Proof. unfold render_chars. simpl. by rewrite <- app_assoc. Qed.

Lemma at_placeholder_Lit c p :
  c ≠ "%"%char → at_placeholder (render_chars (Lit c :: p) ++ [NUL]) = Got false.
Proof.
  intros Hc. unfold at_placeholder. simpl.
  by destruct (Ascii.eqb_spec c "%").
Qed.

Lemma at_placeholder_Digits n p :
  at_placeholder (render_chars (Digits n :: p) ++ [NUL]) = Got true.
Proof. destruct n; reflexivity. Qed.

Lemma eat_placeholder_Digits n p y :
  wf_token (Digits n) →
  eat_placeholder (render_chars (Digits n :: p) ++ [NUL]) (y ++ [NUL])
  = Got (inr (render_chars p ++ [NUL], drop_digits y ++ [NUL])).
Proof.
  intros Hwf. rewrite render_chars_cons.
  destruct n as [n|]; unfold eat_placeholder.
  - destruct Hwf as [Hz Hp].
    change (incr (render_token (Digits (Some n)) ++ render_chars p ++ [NUL]))
      with ("("%char :: (list_ascii_of_string n ++ [")"; "d"]%char)
                          ++ render_chars p ++ [NUL]).
    rewrite read_cons. simpl (Ascii.eqb _ _). cbv iota.
    change (skip_name ("("%char :: ?l)) with (skip_name l).
    rewrite <- (app_assoc _ [")"; "d"]%char).
    simpl (([_; _] ++ _)).
    rewrite skip_name_close by done.
    simpl. by rewrite eat_digits_end.
  - simpl. by rewrite eat_digits_end.
Qed.

Lemma checkPort_loop_S fuel x y :
  checkPort_loop (S fuel) x y =
    (ph ← at_placeholder x;
     r ← (if ph : bool then eat_placeholder x y else Got (inr (x, y)));
     match r with
     | inl b => Got b
     | inr (x, y) => checkPort_compare fuel x y
     end).
Proof. reflexivity. Qed.

Lemma length_incr (x : list ascii) : (length (incr x) ≤ length x)%nat.
Proof. destruct x; simpl; lia. Qed.

Lemma skip_name_length x x' :
  skip_name x = Got x' → (length x' ≤ length x)%nat.
Proof.
  revert x'. induction x as [|c x IH]; intros x'; simpl; [done|].
  destruct (negb _ && negb _).
  - intros H%IH. lia.
  - by intros [= <-].
Qed.

Lemma eat_placeholder_length x y x' y' :
  eat_placeholder x y = Got (inr (x', y')) → (length x' ≤ length x)%nat.
Proof.
  unfold eat_placeholder.
  destruct (read (incr x)) as [c| |]; simpl; try done.
  destruct (Ascii.eqb c "(").
  - destruct (skip_name (incr x)) as [x1| |] eqn:E; simpl; try done.
    apply skip_name_length in E.
    destruct (read (incr x1)) as [c1| |]; simpl; try done.
    destruct (negb _); [done|].
    destruct (eat_digits y) as [y1| |]; simpl; try done.
    intros [= <- _].
    pose proof (length_incr x). pose proof (length_incr x1).
    pose proof (length_incr (incr x1)). lia.
  - simpl. destruct (read (incr x)) as [c1| |]; simpl; try done.
    destruct (negb _); [done|].
    destruct (eat_digits y) as [y1| |]; simpl; try done.
    intros [= <- _].
    pose proof (length_incr x). pose proof (length_incr (incr x)). lia.
Qed.

Lemma read_fuel x : read x ≠ NoFuel.
Proof. by destruct x. Qed.

Lemma skip_name_fuel x : skip_name x ≠ NoFuel.
Proof.
  induction x as [|c x IH]; simpl; [done|]. by destruct (negb _ && negb _).
Qed.

Lemma eat_digits_fuel y : eat_digits y ≠ NoFuel.
Proof.
  induction y as [|c y IH]; simpl; [done|]. by destruct (negb _ && isdigit c).
Qed.

Lemma scan_bind_fuel {A B} (m : scan A) (k : A → scan B) :
  m ≠ NoFuel → (∀ a, k a ≠ NoFuel) → m ≫= k ≠ NoFuel.
Proof. intros Hm Hk. destruct m; simpl; [apply Hk | done | done]. Qed.

Lemma at_placeholder_fuel x : at_placeholder x ≠ NoFuel.
Proof.
  unfold at_placeholder. apply scan_bind_fuel; [apply read_fuel|].
  intros c. destruct (Ascii.eqb c "%"); [|done].
  apply scan_bind_fuel; [apply read_fuel | done].
Qed.

Lemma eat_placeholder_fuel x y : eat_placeholder x y ≠ NoFuel.
Proof.
  unfold eat_placeholder. apply scan_bind_fuel; [apply read_fuel|].
  intros c. apply scan_bind_fuel.
  { destruct (Ascii.eqb c "("); [|done].
    apply scan_bind_fuel; [apply skip_name_fuel | done]. }
  intros x'. apply scan_bind_fuel; [apply read_fuel|].
  intros c'. destruct (negb _); [done|].
  apply scan_bind_fuel; [apply eat_digits_fuel | done].
Qed.

(** The iteration budget of [checkPort] is never used up: on every pair of
    buffers the loop returns or reads past the end of one. *)
Lemma checkPort_loop_fuel fuel x y :
  (0 < fuel)%nat → (length x ≤ fuel)%nat → checkPort_loop fuel x y ≠ NoFuel.
Proof.
  revert x y. induction fuel as [|fuel IH]; intros x y Hpos Hlen; [lia|].
  rewrite checkPort_loop_S.
  assert (∀ x' y', (length x' ≤ length x)%nat →
            checkPort_compare fuel x' y' ≠ NoFuel) as Hcmp.
  { intros x' y' Hx'. unfold checkPort_compare.
    destruct x' as [|cx x1]; simpl; [done|].
    destruct y' as [|cy y1]; simpl; [done|].
    destruct (negb (Ascii.eqb cx cy)); [done|].
    destruct (Ascii.eqb cx NUL); [done|].
    destruct x1 as [|cx1 x2]; simpl; [done|].
    destruct y1 as [|cy1 y2]; simpl; [done|].
    destruct (negb (Ascii.eqb cx1 NUL) && negb (Ascii.eqb cy1 NUL));
      [|by destruct (negb _)].
    simpl in Hx'. apply IH; simpl; lia. }
  pose proof (at_placeholder_fuel x) as Hph.
  destruct (at_placeholder x) as [[|]| |]; simpl; try done.
  - pose proof (eat_placeholder_fuel x y) as Heat.
    destruct (eat_placeholder x y) as [[b|[x' y']]| |] eqn:E; simpl; try done.
    apply Hcmp. by eapply eat_placeholder_length.
  - by apply Hcmp.
Qed.

(** [checkPort] returns or reads past the end of a buffer. *)
Lemma checkPort_fuel def offered : checkPort def offered ≠ NoFuel.
Proof.
  unfold checkPort, checkPort_buf.
  assert (checkPort_loop (length (c_str def)) (c_str def) (c_str offered)
          ≠ NoFuel) as Hloop.
  { apply checkPort_loop_fuel; [|done].
    unfold c_str. rewrite length_app. simpl. lia. }
  destruct (c_str def) as [|c [|c1 x]]; simpl; try done.
  - by destruct (Ascii.eqb c "*").
  - destruct (Ascii.eqb c "*"); simpl; [|done].
    by destruct (Ascii.eqb c1 NUL).
Qed.

Lemma length_buf_cons t p :
  (length (render_chars p ++ [NUL]) < length (render_chars (t :: p) ++ [NUL]))%nat.
Proof.
  rewrite render_chars_cons, (length_app (render_token t)).
  destruct t as [c|[n|]]; simpl; lia.
Qed.

Lemma adjacent_free_tail t p :
  adjacent_free (t :: p) → adjacent_free p ∧ (literal_head p ∨ literal_head [t]).
Proof.
  destruct t as [c|n]; simpl.
  - intros H. split; [by destruct p | by right].
  - destruct p as [|[c|m] p]; simpl; intros H; try done; split; auto.
Qed.

(** One comparison step of the loop agrees with [compare_tokens], provided
    the loop with the remaining budget agrees with [scan_tokens]. *)
Lemma checkPort_compare_tokens fuel :
  (∀ p y, Forall wf_token p → NUL ∉ y →
          adjacent_free p ∨ "%"%char ∉ y →
          (length (render_chars p ++ [NUL]) ≤ fuel)%nat →
          checkPort_loop fuel (render_chars p ++ [NUL]) (y ++ [NUL])
          = Got (scan_tokens p y)) →
  ∀ p y, Forall wf_token p → NUL ∉ y →
         (literal_head p ∧ adjacent_free p) ∨ "%"%char ∉ y →
         (length (render_chars p ++ [NUL]) ≤ S fuel)%nat →
         checkPort_compare fuel (render_chars p ++ [NUL]) (y ++ [NUL])
         = Got (compare_tokens p y).
Proof.
  intros IH p y Hwf Hy Hc Hlen.
  unfold checkPort_compare. rewrite read_buf, read_end.
  change (mbind ?k (Got ?a)) with (k a). cbv beta.
  change (mbind ?k (Got ?a)) with (k a). cbv beta.
  destruct p as [|[c|n] p'].
  - (* end of the pattern *)
    destruct y as [|c' y']; [done|].
    apply not_elem_of_cons in Hy as [Hc' _]. simpl.
    by destruct (Ascii.eqb_spec NUL c').
  - (* a literal *)
    apply Forall_cons in Hwf as [[Hc0 Hcp] Hwf].
    destruct y as [|c' y']; simpl hd; simpl first_char.
    { by destruct (Ascii.eqb_spec c NUL). }
    apply not_elem_of_cons in Hy as [Hc' Hy].
    simpl compare_tokens.
    destruct (Ascii.eqb_spec c c') as [<-|Hne]; [|done].
    destruct (Ascii.eqb_spec c NUL) as [->|_]; [done|].
    cbv [negb]. cbv iota.
    change (incr (render_chars (Lit c :: p') ++ [NUL]))
      with (render_chars p' ++ [NUL]).
    change (incr ((c :: y') ++ [NUL])) with (y' ++ [NUL]).
    rewrite read_buf, read_end.
    change (mbind ?k (Got ?a)) with (k a). cbv beta.
    change (mbind ?k (Got ?a)) with (k a). cbv beta.
    rewrite andb_true_l.
    destruct p' as [|t p''].
    { destruct y' as [|c2 y'']; [done|].
      apply not_elem_of_cons in Hy as [Hc2 _]. simpl.
      by destruct (Ascii.eqb_spec NUL c2). }
    assert (first_char (t :: p'') ≠ NUL) as Hfc.
    { intros E. by apply first_char_NUL in E. }
    destruct y' as [|c2 y'']; simpl hd.
    { rewrite Ascii.eqb_refl.
      destruct (Ascii.eqb_spec (first_char (t :: p'')) NUL) as [|_]; [done|].
      by destruct t. }
    destruct (Ascii.eqb_spec (first_char (t :: p'')) NUL) as [|_]; [done|].
    assert (c2 ≠ NUL) as Hc2.
    { intros ->. apply Hy. left. }
    destruct (Ascii.eqb_spec c2 NUL) as [|_]; [done|].
    simpl andb. cbv iota.
    rewrite IH; [by destruct t | done | done | | ].
    + destruct Hc as [[_ Had]|Hp]; [left | right].
      * by destruct t.
      * by apply not_elem_of_cons in Hp as [_ Hp].
    + pose proof (length_buf_cons (Lit c) (t :: p'')). lia.
  - (* a placeholder compared as the character '%' *)
    destruct Hc as [[[] _]|Hp].
    simpl first_char. simpl compare_tokens.
    destruct y as [|c' y']; [done|].
    apply not_elem_of_cons in Hp as [Hp _]. simpl hd.
    by destruct (Ascii.eqb_spec "%" c') as [<-|_].
Qed.

(** The loop of [checkPort] on a rendered pattern computes [scan_tokens]. *)
Lemma checkPort_loop_tokens fuel p y :
  Forall wf_token p → NUL ∉ y →
  adjacent_free p ∨ "%"%char ∉ y →
  (length (render_chars p ++ [NUL]) ≤ fuel)%nat →
  checkPort_loop fuel (render_chars p ++ [NUL]) (y ++ [NUL])
  = Got (scan_tokens p y).
Proof.
  revert p y. induction fuel as [|fuel IH]; intros p y Hwf Hy Hc Hlen.
  { rewrite length_app in Hlen. simpl in Hlen. lia. }
  rewrite checkPort_loop_S.
  destruct p as [|[c|n] p'].
  - change (at_placeholder _) with (Got (A:=bool) false).
    change (mbind ?k (Got ?a)) with (k a). cbv beta iota.
    change (mbind ?k (Got ?a)) with (k a). cbv beta iota.
    apply (checkPort_compare_tokens fuel IH); auto.
    destruct Hc; [left; by split | by right].
  - pose proof Hwf as Hwf'. apply Forall_cons in Hwf' as [[_ Hcp] _].
    rewrite at_placeholder_Lit by done.
    change (mbind ?k (Got ?a)) with (k a). cbv beta iota.
    change (mbind ?k (Got ?a)) with (k a). cbv beta iota.
    apply (checkPort_compare_tokens fuel IH); auto.
    destruct Hc; [left; by split | by right].
  - apply Forall_cons in Hwf as [Hn Hwf].
    rewrite at_placeholder_Digits.
    change (mbind ?k (Got ?a)) with (k a). cbv beta iota.
    rewrite eat_placeholder_Digits by done.
    change (mbind ?k (Got ?a)) with (k a). cbv beta iota.
    apply (checkPort_compare_tokens fuel IH); auto.
    + intros Hin. by apply drop_digits_subseteq in Hin.
    + destruct Hc as [Had|Hp].
      * apply adjacent_free_tail in Had as [Had [Hl|[]]]. by left.
      * right. intros Hin. by apply drop_digits_subseteq in Hin.
    + pose proof (length_buf_cons (Digits n) p'). lia.
Qed.

(** [checkPort] on a well-formed pattern computes [scan_tokens]: it always
    returns, and never reads past the end of a buffer. *)
Lemma checkPort_tokens p offered :
  wf_pattern p → NUL ∉ list_ascii_of_string offered →
  adjacent_free p ∨ "%"%char ∉ list_ascii_of_string offered →
  checkPort (render p) offered
  = Got (scan_tokens p (list_ascii_of_string offered)).
Proof.
  intros [Hwf Hstar] Hy Hc. unfold checkPort, checkPort_buf.
  rewrite c_str_render. unfold c_str. rewrite read_buf.
  change (mbind ?k (Got ?a)) with (k a). cbv beta.
  assert (Ascii.eqb (first_char p) "*" = true →
          read (incr (render_chars p ++ [NUL])) ≫= (λ c1,
            if true && Ascii.eqb c1 NUL
            then Got true
            else checkPort_loop (length (render_chars p ++ [NUL]))
                   (render_chars p ++ [NUL])
                   (list_ascii_of_string offered ++ [NUL]))
          = checkPort_loop (length (render_chars p ++ [NUL]))
              (render_chars p ++ [NUL])
              (list_ascii_of_string offered ++ [NUL])) as Hspecial.
  { intros E.
    destruct p as [|[c|n] p']; [done| |done].
    simpl in E. apply Ascii.eqb_eq in E as ->.
    change (incr (render_chars (Lit "*" :: p') ++ [NUL]))
      with (render_chars p' ++ [NUL]).
    rewrite read_buf.
    change (mbind ?k (Got ?a)) with (k a). cbv beta.
    apply Forall_cons in Hwf as [_ Hwf].
    destruct (Ascii.eqb_spec (first_char p') NUL) as [E|_]; [|done].
    apply first_char_NUL in E as ->; done. }
  destruct (Ascii.eqb (first_char p) "*") eqn:E.
  - rewrite Hspecial by done.
    by apply checkPort_loop_tokens.
  - change (mbind ?k (Got ?a)) with (k a). cbv beta. simpl andb. cbv iota.
    by apply checkPort_loop_tokens.
Qed.

Lemma matchPort_spec_adjacent_free p y :
  matchPort_spec true p y = true → adjacent_free p.
Proof.
  revert y. induction p as [|t p IH]; intros y; [done|].
  destruct t as [c|n]; simpl.
  - destruct y as [|c' y']; [done|].
    intros [_ H]%andb_true_iff. apply IH in H. by destruct p.
  - intros [Hn H]%andb_true_iff. destruct p as [|[c|m] p']; [done| |].
    + by apply IH in H.
    + simpl in H. rewrite drop_digits_idemp, Nat.eqb_refl in H. done.
Qed.

Lemma matchPort_spec_literal_head n p y :
  matchPort_spec true (Digits n :: p) y = true → literal_head p.
Proof.
  intros H%matchPort_spec_adjacent_free.
  by apply adjacent_free_tail in H as [_ [H|[]]].
Qed.

(** Whatever the strict reading of the specification accepts, the loop
    accepts. *)
Lemma compare_tokens_complete p :
  ∀ y, literal_head p →
       matchPort_spec true p y = true → compare_tokens p y = true.
Proof.
  induction p as [p IH] using (induction_ltof1 _ (@length Token)).
  unfold ltof in IH. intros y Hl H.
  destruct p as [|[c|n] p']; [done| |done].
  simpl in H. destruct y as [|c' y']; [done|].
  apply andb_true_iff in H as [Hc H]. simpl. rewrite Hc. simpl.
  destruct p' as [|t p''].
  { simpl in H. by destruct y'. }
  destruct y' as [|c2 y''].
  { destruct t; simpl in H; done. }
  destruct t as [d|m].
  - apply IH; [simpl; lia | done | done].
  - pose proof (matchPort_spec_literal_head _ _ _ H) as Hl'.
    simpl in H. apply andb_true_iff in H as [_ H].
    apply IH; [simpl; lia | done | done].
Qed.

Lemma scan_tokens_complete p y :
  matchPort_spec true p y = true → scan_tokens p y = true.
Proof.
  intros H. destruct p as [|[c|n] p'].
  - by apply compare_tokens_complete.
  - by apply compare_tokens_complete.
  - pose proof (matchPort_spec_literal_head _ _ _ H) as Hl.
    simpl in H. apply andb_true_iff in H as [_ H].
    by apply compare_tokens_complete.
Qed.

(** Whatever the loop accepts, the lenient reading of the specification
    accepts. *)
Lemma compare_tokens_sound p :
  ∀ y, compare_tokens p y = true → matchPort_spec false p y = true.
Proof.
  induction p as [p IH] using (induction_ltof1 _ (@length Token)).
  unfold ltof in IH. intros y H.
  destruct p as [|[c|n] p']; [done| |done].
  simpl in H. destruct y as [|c' y']; [done|].
  apply andb_true_iff in H as [Hc H]. simpl. rewrite Hc. simpl.
  destruct p' as [|t p''].
  { by destruct y'. }
  destruct t as [d|m]; (destruct y' as [|c2 y'']; [done|]).
  - apply IH; [simpl; lia | done].
  - change (matchPort_spec false (Digits m :: p'') (c2 :: y''))
      with (matchPort_spec false p'' (drop_digits (c2 :: y''))).
    apply IH; [simpl; lia | done].
Qed.

Lemma scan_tokens_sound p y :
  scan_tokens p y = true → matchPort_spec false p y = true.
Proof.
  destruct p as [|[c|n] p']; simpl scan_tokens; intros H.
  - by apply compare_tokens_sound.
  - by apply compare_tokens_sound.
  - change (matchPort_spec false (Digits n :: p') y)
      with (matchPort_spec false p' (drop_digits y)).
    by apply compare_tokens_sound.
Qed.

Lemma checkPort_wildcard offered : checkPort "*" offered = Got true.
Proof. reflexivity. Qed.








Lemma list_ascii_of_string_app a b :
  list_ascii_of_string (a +:+ b)
  = list_ascii_of_string a ++ list_ascii_of_string b.
Proof. induction a as [|c a IH]; simpl; [done | by rewrite IH]. Qed.

(** A parenthesized name that is closed but not followed by ['d'] is
    rejected, and nothing is read past the end. *)
Lemma checkPort_wrong_marker (name rest offered : string) :
  NUL ∉ list_ascii_of_string name →
  ")"%char ∉ list_ascii_of_string name →
  hd NUL (list_ascii_of_string rest) ≠ "d"%char →
  checkPort ("%(" +:+ name +:+ ")" +:+ rest) offered = Got false.
Proof.
  intros Hz Hp Hd. unfold checkPort, checkPort_buf, c_str.
  change ("%(" +:+ name +:+ ")" +:+ rest)
    with (String "%" (String "(" (name +:+ String ")" rest))).
  cbn [list_ascii_of_string]. rewrite list_ascii_of_string_app.
  cbn [list_ascii_of_string].
  change (read (("%"%char :: ?l) ++ ?e)) with (Got (A:=ascii) "%"%char).
  change (mbind ?k (Got ?a)) with (k a). cbv beta.
  change (Ascii.eqb "%" "*") with false. cbv iota.
  change (mbind ?k (Got ?a)) with (k a). cbv beta.
  simpl andb. cbv iota. simpl length.
  rewrite checkPort_loop_S.
  change (at_placeholder _) with (Got (A:=bool) true).
  change (mbind ?k (Got ?a)) with (k a). cbv beta iota.
  unfold eat_placeholder.
  change (incr (("%"%char :: "("%char :: ?l) ++ ?e)) with ("("%char :: l ++ e).
  rewrite read_cons.
  change (mbind ?k (Got ?a)) with (k a). cbv beta.
  change (Ascii.eqb "(" "(") with true. cbv iota.
  change (skip_name ("("%char :: ?l)) with (skip_name l).
  rewrite <- app_assoc. simpl ((_ :: _) ++ _).
  rewrite skip_name_close by done.
  change (mbind ?k (Got ?a)) with (k a). cbv beta.
  change (mbind ?k (Got ?a)) with (k a). cbv beta.
  change (incr (")"%char :: ?l)) with l.
  rewrite read_end.
  change (mbind ?k (Got ?a)) with (k a). cbv beta.
  by destruct (Ascii.eqb_spec (hd NUL (list_ascii_of_string rest)) "d").
Qed.

(** C8.  A pattern that ends inside the parenthesized name of a placeholder
    makes [checkPort] read the character after the terminator of the
    pattern: the scan for [')'] stops at the terminator, the following [x++]
    steps over it, and the test [*x != 'd'] reads from there. *)
Theorem checkPort_unterminated_name (name offered : string) :
  NUL ∉ list_ascii_of_string name →
  ")"%char ∉ list_ascii_of_string name →
  checkPort ("%(" +:+ name) offered = PastEnd.
Proof.
  intros Hz Hp. unfold checkPort, checkPort_buf, c_str.
  change (list_ascii_of_string ("%(" +:+ name))
    with ("%"%char :: "("%char :: list_ascii_of_string name).
  change (read (("%"%char :: ?l) ++ ?e)) with (Got (A:=ascii) "%"%char).
  change (mbind ?k (Got ?a)) with (k a). cbv beta.
  change (Ascii.eqb "%" "*") with false. cbv iota.
  change (mbind ?k (Got ?a)) with (k a). cbv beta.
  simpl andb. cbv iota. simpl length.
  rewrite checkPort_loop_S.
  change (at_placeholder _) with (Got (A:=bool) true).
  change (mbind ?k (Got ?a)) with (k a). cbv beta iota.
  unfold eat_placeholder.
  change (incr (("%"%char :: "("%char :: ?l) ++ ?e)) with ("("%char :: l ++ e).
  rewrite read_cons.
  change (mbind ?k (Got ?a)) with (k a). cbv beta.
  change (Ascii.eqb "(" "(") with true. cbv iota.
  change (skip_name ("("%char :: ?l)) with (skip_name l).
  by rewrite skip_name_open.
Qed.

Lemma checkPort_unterminated_name_witness :
  checkPort "%(bank" "0" = PastEnd.
Proof.
  apply (checkPort_unterminated_name "bank" "0");
    apply (bool_decide_unpack _); vm_compute; reflexivity.
Defined.

(** ** Library loading *)

(** Unfolds the monad of the factory. *)
Ltac run :=
  cbv [mbind M_bind mret M_ret gets modify fatal undefined output];
  cbn beta iota.

Section Loading.

Variable elemLoader : string → bool → ELI → bool * ELI.

Lemma loadLibrary_run name showErrors w :
  loadLibrary elemLoader name showErrors w =
    let w1 := after_loader elemLoader name showErrors w in
    if bool_decide (name ∈ LoadedLibraries (eli w1))
    then Ret true (set_loaded_libraries (λ l, {[name]} ∪ l) w1)
    else Ret false w1.
Proof.
  unfold loadLibrary, loader_loadLibrary, after_loader. run.
  destruct (elemLoader name showErrors (eli w)) as [ok e']. run. simpl.
  by destruct (bool_decide (name ∈ LoadedLibraries e')).
Qed.

Lemma findLibrary_run name showErrors w :
  findLibrary elemLoader name showErrors w =
    if bool_decide (name ∈ loaded_libraries w) then Ret true w
    else loadLibrary elemLoader name showErrors w.
Proof.
  unfold findLibrary. run.
  by destruct (bool_decide (name ∈ loaded_libraries w)).
Qed.

(** [findLibrary] returns, and returns whether the name is loaded then. *)
Lemma findLibrary_returns name showErrors w :
  ∃ ok w', findLibrary elemLoader name showErrors w = Ret ok w'
           ∧ (ok = true ↔ name ∈ loaded_libraries w')
           ∧ loaded_libraries w ⊆ loaded_libraries w'
           ∧ (name ∈ loaded_libraries w → w' = w)
           ∧ (name ∉ loaded_libraries w →
              loaderCalls w' = loaderCalls w ++ [(name, showErrors)]).
Proof.
  rewrite findLibrary_run. case_bool_decide as Hin.
  { exists true, w. repeat split; done. }
  rewrite loadLibrary_run. cbv zeta. case_bool_decide as Hreg.
  - eexists true, _. split; [done|]. simpl. repeat split; try done.
    + intros _. set_solver.
    + set_solver.
  - eexists false, _. split; [done|]. simpl. repeat split; try done.
Qed.

Lemma request_returns r name w :
  ∃ w', request elemLoader r name w = Ret () w'
        ∧ loaded_libraries w ⊆ loaded_libraries w'
        ∧ (name ∈ loaded_libraries w → w' = w)
        ∧ (name ∉ loaded_libraries w → name ∈ loaded_libraries w' →
           ∃ showErrors,
             loaderCalls w' = loaderCalls w ++ [(name, showErrors)]).
Proof.
  destruct r as [showErrors|]; unfold request, requireLibrary.
  - destruct (findLibrary_returns name showErrors w)
      as (ok & w' & E & _ & Hsub & Hsame & Hcall).
    exists w'. run. rewrite E. repeat split; eauto.
  - destruct (decide (name = "sst")) as [->|Hne].
    + exists w. run. repeat split; [done|]. intros H1 H2. done.
    + destruct (findLibrary_returns name true w)
        as (ok & w' & E & _ & Hsub & Hsame & Hcall).
      exists w'. run. rewrite E. repeat split; eauto.
Qed.


End Loading.

(** ** The set of loaded libraries only grows *)

Lemma grows_same {A} (m : M A) :
  (∀ w v w', m w = Ret v w' → loaded_libraries w' = loaded_libraries w) →
  grows m.
Proof. intros H w v w' E. by rewrite (H _ _ _ E). Qed.

Lemma grows_bind {A B} (m : M A) (k : A → M B) :
  grows m → (∀ a, grows (k a)) → grows (m ≫= k).
Proof.
  intros Hm Hk w v w' E. unfold mbind, M_bind in E.
  destruct (m w) as [a w1| | |] eqn:E1; try discriminate.
  etrans; [by eapply Hm | by eapply Hk].
Qed.

Lemma grows_ret {A} (a : A) : grows (mret a).
Proof. apply grows_same. by intros w v w' [= _ <-]. Qed.

Lemma grows_gets {A} (f : World → A) : grows (gets f).
Proof. apply grows_same. by intros w v w' [= _ <-]. Qed.

Lemma grows_fatal {A} msg : grows (fatal (A:=A) msg).
Proof. intros w v w' [=]. Qed.

Lemma grows_undefined {A} u : grows (undefined (A:=A) u).
Proof. intros w v w' [=]. Qed.

Lemma grows_lift_scan {A} (r : scan A) : grows (lift_scan r).
Proof.
  destruct r; [apply grows_ret | apply grows_undefined | intros w v w' [=]].
Qed.

Lemma grows_modify (f : World → World) :
  (∀ w, loaded_libraries w ⊆ loaded_libraries (f w)) → grows (modify f).
Proof. intros H w v w' [= _ <-]. apply H. Qed.

Lemma grows_parseLoadName type : grows (parseLoadName type).
Proof.
  unfold parseLoadName. destruct (find_first_of "." type); [apply grows_ret|].
  apply grows_bind; [|intros; apply grows_ret].
  destruct (decide _); [by apply grows_modify | apply grows_ret].
Qed.

(** Splits a goal [grows m] along the structure of [m]. *)
Ltac grows_step :=
  match goal with
  | |- grows (mbind _ _) => apply grows_bind; [|intros ?]
  | |- grows (mret _) => apply grows_ret
  | |- grows (gets _) => apply grows_gets
  | |- grows (fatal _) => apply grows_fatal
  | |- grows (undefined _) => apply grows_undefined
  | |- grows (lift_scan _) => apply grows_lift_scan
  | |- grows (parseLoadName _) => apply grows_parseLoadName
  | |- grows (output _) => by apply grows_modify
  | |- grows (modify _) => by apply grows_modify
  | |- grows (let '(_, _) := ?x in _) => destruct x
  | |- grows (match ?x with _ => _ end) => destruct x
  | |- grows (if ?x then _ else _) => destruct x
  end.

Section Growth.

Variable elemLoader : string → bool → ELI → bool * ELI.
Variable showErrors_default : bool.

Lemma grows_loadLibrary name showErrors :
  grows (loadLibrary elemLoader name showErrors).
Proof.
  intros w v w'. rewrite loadLibrary_run. cbv zeta.
  case_bool_decide; simpl; intros E; injection E as _ E; subst w';
    simpl; [apply union_subseteq_r | done].
Qed.

Lemma grows_findLibrary name showErrors :
  grows (findLibrary elemLoader name showErrors).
Proof.
  unfold findLibrary. repeat grows_step. apply grows_loadLibrary.
Qed.

Lemma grows_hasLibrary name : grows (hasLibrary elemLoader name).
Proof. apply grows_findLibrary. Qed.

Lemma grows_requireLibrary name : grows (requireLibrary elemLoader name).
Proof.
  unfold requireLibrary. repeat grows_step. apply grows_findLibrary.
Qed.

Lemma grows_loadUnloadedLibraries lib_names :
  grows (loadUnloadedLibraries elemLoader showErrors_default lib_names).
Proof.
  induction lib_names as [|i rest IH]; simpl; repeat grows_step;
    [apply grows_findLibrary | done].
Qed.

Lemma grows_scanPorts ports port_name : grows (scanPorts ports port_name).
Proof. induction ports as [|p rest IH]; simpl; repeat grows_step; done. Qed.

Lemma grows_isPortNameValid type port_name :
  grows (isPortNameValid elemLoader showErrors_default type port_name).
Proof.
  unfold isPortNameValid.
  repeat first [apply grows_findLibrary | apply grows_scanPorts | grows_step].
Qed.

Lemma grows_DoesSubComponentSlotExist type slotName :
  grows (DoesSubComponentSlotExist elemLoader type slotName).
Proof.
  unfold DoesSubComponentSlotExist.
  repeat first [apply grows_requireLibrary | grows_step].
Qed.

Lemma grows_GetComponentInfoStatisticEnableLevel type statisticName :
  grows (GetComponentInfoStatisticEnableLevel elemLoader type statisticName).
Proof.
  unfold GetComponentInfoStatisticEnableLevel.
  repeat first [apply grows_requireLibrary | grows_step].
Qed.

Lemma grows_CreatePartitioner name total_ranks my_rank verbosity :
  grows (CreatePartitioner elemLoader name total_ranks my_rank verbosity).
Proof.
  unfold CreatePartitioner.
  repeat first [apply grows_requireLibrary | grows_step].
Qed.

Lemma grows_getPythonModule name : grows (getPythonModule name).
Proof. unfold getPythonModule. repeat grows_step. Qed.

Lemma grows_run_script construct steps params :
  (∀ c p, grows (construct c p)) → grows (run_script construct steps params).
Proof.
  intros Hc. induction steps as [|[c arg] rest IH]; simpl;
    repeat first [apply Hc | apply IH | grows_step].
  unfold newParams. repeat grows_step.
Qed.

Lemma grows_construct fuel c params :
  grows (construct elemLoader fuel c params).
Proof.
  revert c params. induction fuel as [|fuel IH]; intros c params.
  { intros w v w' [=]. }
  destruct c; simpl;
    unfold CreateComponent, CreateModule, CreateModuleWithComponent,
      CreateSubComponent, setAllowedPorts, params_pushAllowedKeys,
      params_popAllowedKeys;
    repeat first [apply grows_requireLibrary
                 | apply grows_run_script; apply IH
                 | grows_step].
Qed.

Lemma world_after_grows {A} (m : M A) w w' :
  grows m → world_after (m w) = Some w' →
  loaded_libraries w ⊆ loaded_libraries w'.
Proof.
  intros Hm. destruct (m w) as [v w1| | |] eqn:E; try discriminate.
  intros [= <-]. by eapply Hm.
Qed.

Lemma call_result_grows c w w' :
  call_result elemLoader showErrors_default c w = Some w' → loaded_libraries w ⊆ loaded_libraries w'.
Proof.
  destruct c; simpl; apply world_after_grows.
  - apply grows_loadLibrary.
  - apply grows_findLibrary.
  - apply grows_hasLibrary.
  - apply grows_requireLibrary.
  - apply grows_loadUnloadedLibraries.
  - apply grows_isPortNameValid.
  - apply grows_DoesSubComponentSlotExist.
  - apply grows_GetComponentInfoStatisticEnableLevel.
  - apply grows_construct.
  - apply grows_CreatePartitioner.
  - apply grows_getPythonModule.
Qed.

(** C5.  For a library that is not loaded yet: of two requests for it,
    through [findLibrary] or [requireLibrary], the first of which leaves it
    loaded, exactly one reaches the external loader; [hasLibrary] then
    returns true and changes nothing, the loader is not called.  Neither
    these nor any other call into the factory removes a member from the set
    of loaded libraries. *)
Theorem load_twice_loads_once (name : string) (r1 r2 : LibraryRequest)
    (w w1 w2 : World) :
  name ∉ loaded_libraries w →
  world_after (request elemLoader r1 name w) = Some w1 →
  name ∈ loaded_libraries w1 →
  world_after (request elemLoader r2 name w1) = Some w2 →
  (∃ showErrors, loaderCalls w2 = loaderCalls w ++ [(name, showErrors)])
  ∧ hasLibrary elemLoader name w2 = Ret true w2
  ∧ loaded_libraries w ⊆ loaded_libraries w1
  ∧ loaded_libraries w1 ⊆ loaded_libraries w2
  ∧ (∀ call s s',
       call_result elemLoader showErrors_default call s = Some s' →
       loaded_libraries s ⊆ loaded_libraries s').
Proof.
  intros Hnot E1 Hin E2.
  destruct (request_returns elemLoader r1 name w) as (w1' & R1 & Hsub1 & _ & Hcall).
  rewrite R1 in E1. injection E1 as ->.
  destruct (request_returns elemLoader r2 name w1) as (w2' & R2 & _ & Hsame & _).
  rewrite R2 in E2. injection E2 as ->.
  rewrite (Hsame Hin). repeat split; try done.
  - by apply Hcall.
  - unfold hasLibrary. rewrite findLibrary_run. by rewrite bool_decide_true.
  - apply call_result_grows.
Qed.

End Growth.

Lemma load_twice_loads_once_witness :
  ∃ w2, world_after
          (request registering_loader (ByFindLibrary true) "merlin"
             (newFactory empty_ELI ∅ ∅)) = Some w2
        ∧ loaderCalls w2 = [("merlin", true)]
        ∧ hasLibrary registering_loader "merlin" w2 = Ret true w2.
Proof.
  eexists. split; [vm_compute; reflexivity|].
  assert (Hw : ∀ w1, w1 = set_loaded_libraries (λ l, {["merlin"]} ∪ l)
             (after_loader registering_loader "merlin" true
                (newFactory empty_ELI ∅ ∅)) →
     "merlin" ∈ loaded_libraries w1).
  { intros w1 ->. apply (bool_decide_unpack _). vm_compute. reflexivity. }
  pose proof (load_twice_loads_once registering_loader true "merlin"
    (ByFindLibrary true) ByRequireLibrary
    (newFactory empty_ELI ∅ ∅) _ _
    ltac:(apply (bool_decide_unpack _); vm_compute; reflexivity)
    ltac:(vm_compute; reflexivity)
    (Hw _ eq_refl)
    ltac:(vm_compute; reflexivity)) as (Hcalls & Hhas & _).
  split; [reflexivity | exact Hhas].
Defined.

(** ** Port validation and statistic queries *)

Lemma scanPorts_no_match ports port_name w :
  Forall (λ p, checkPort p port_name = Got false) ports →
  scanPorts ports port_name w = Ret false w.
Proof.
  induction 1 as [|p rest Hp _ IH]; simpl; [done|].
  run. rewrite Hp. simpl. exact IH.
Qed.

(** [scanPorts] returns true at the first pattern that matches. *)
Lemma scanPorts_first_match pre p post port_name w :
  Forall (λ q, checkPort q port_name = Got false) pre →
  checkPort p port_name = Got true →
  scanPorts (pre ++ p :: post) port_name w = Ret true w.
Proof.
  intros Hpre Hp. induction Hpre as [|q pre Hq _ IH]; simpl; run.
  - by rewrite Hp.
  - rewrite Hq. simpl. exact IH.
Qed.

Lemma findEnableLevel_Some stats statisticName level :
  findEnableLevel stats statisticName = Some level →
  ∃ item, item ∈ stats ∧ stat_name item = statisticName
          ∧ stat_enableLevel item = level.
Proof.
  induction stats as [|item rest IH]; simpl; [done|].
  destruct (decide (statisticName = stat_name item)) as [->|_].
  - intros [= <-]. exists item. split; [left | done].
  - intros (i & Hi & ?)%IH. exists i. split; [by right | done].
Qed.

Lemma findEnableLevel_None stats statisticName :
  findEnableLevel stats statisticName = None ↔
  ∀ item, item ∈ stats → stat_name item ≠ statisticName.
Proof.
  induction stats as [|item rest IH]; simpl.
  - split; [intros _ i Hi; by apply elem_of_nil in Hi | done].
  - destruct (decide (statisticName = stat_name item)) as [->|Hne].
    + split; [done | intros H; exfalso; by apply (H item); [left|]].
    + rewrite IH. split.
      * intros H i [->|Hi]%elem_of_cons; [done | by apply H].
      * intros H i Hi. apply H. by right.
Qed.

Section Queries.

Variable elemLoader : string → bool → ELI → bool * ELI.
Variable showErrors_default : bool.

Lemma requireLibrary_loaded elemlib w :
  elemlib ∈ loaded_libraries w →
  requireLibrary elemLoader elemlib w = Ret () w.
Proof.
  intros Hin. unfold requireLibrary. destruct (decide _); [done|].
  run. rewrite findLibrary_run. by rewrite bool_decide_true.
Qed.

(** For a component type, [isPortNameValid] is the scan over the patterns
    the component declares. *)
Lemma isPortNameValid_component type port_name elemlib elem lib info w :
  parseLoadName type w = Ret (elemlib, elem) w →
  elemlib ∈ loaded_libraries w →
  getLibrary (componentInfo (eli w)) elemlib = Some lib →
  getInfo lib elem = Some info →
  isPortNameValid elemLoader showErrors_default type port_name w
  = scanPorts (getPortnames info) port_name w.
Proof.
  intros Hparse Hin Hlib Hinfo. unfold isPortNameValid. run.
  rewrite Hparse. rewrite bool_decide_true by done. rewrite Hlib, Hinfo.
  done.
Qed.

(** For a component type, and for a sub-component type of a library
    without components, [GetComponentInfoStatisticEnableLevel] returns the
    declared level of a declared statistic, and 0 for any other name. *)
Lemma enableLevel_of_component type statisticName
    elemlib elem lib info w :
  type ≠ "" →
  parseLoadName type w = Ret (elemlib, elem) w →
  elemlib ∈ loaded_libraries w →
  getLibrary (componentInfo (eli w)) elemlib = Some lib →
  getInfo lib elem = Some info →
  GetComponentInfoStatisticEnableLevel elemLoader type statisticName w
  = Ret (default 0%Z (findEnableLevel (getValidStats info) statisticName)) w.
Proof.
  intros Hne Hparse Hin Hlib Hinfo.
  unfold GetComponentInfoStatisticEnableLevel.
  rewrite decide_False by done. run.
  rewrite Hparse, requireLibrary_loaded by done. rewrite Hlib.
  unfold enableLevelIn. rewrite Hinfo. by destruct (findEnableLevel _ _).
Qed.

Lemma enableLevel_of_subcomponent_library type
    statisticName elemlib elem lib info w :
  type ≠ "" →
  parseLoadName type w = Ret (elemlib, elem) w →
  elemlib ∈ loaded_libraries w →
  getLibrary (componentInfo (eli w)) elemlib = None →
  getLibrary (subComponentInfo (eli w)) elemlib = Some lib →
  getInfo lib elem = Some info →
  GetComponentInfoStatisticEnableLevel elemLoader type statisticName w
  = Ret (default 0%Z (findEnableLevel (getValidStats info) statisticName)) w.
Proof.
  intros Hne Hparse Hin Hnone Hlib Hinfo.
  unfold GetComponentInfoStatisticEnableLevel.
  rewrite decide_False by done. run.
  rewrite Hparse, requireLibrary_loaded by done. rewrite Hnone, Hlib.
  unfold enableLevelIn. rewrite Hinfo. by destruct (findEnableLevel _ _).
Qed.

End Queries.

(** C3.  For the sub-component type [pf.stride], whose declared pattern is
    ["b"], [isPortNameValid] consults the patterns of the element named like
    the library, [pf.pf]: the port ["b"] is rejected and the port ["a"] is
    accepted.  In a library that also registers components the sub-component
    table is not consulted at all: the declared port of
    [memHierarchy.prefetcher] ends the process. *)
Theorem isPortNameValid_subcomponent :
  getInfo (default ∅ (getLibrary (subComponentInfo (eli pf_loaded)) "pf"))
    "stride" = Some stride_info
  ∧ getPortnames stride_info = ["b"]
  ∧ checkPort "b" "b" = Got true
  ∧ isPortNameValid no_libraries true "pf.stride" "b" pf_loaded
    = Ret false pf_loaded
  ∧ isPortNameValid no_libraries true "pf.stride" "a" pf_loaded
    = Ret true pf_loaded
  ∧ getPortnames prefetcher_info = ["pf_port"]
  ∧ isPortNameValid no_libraries true "memHierarchy.prefetcher" "pf_port"
      memHierarchy_loaded
    = Fatal "can't find requested component or subcomponent 'memHierarchy.prefetcher'"
        (log_message (Cerr None {["Cache"]}) memHierarchy_loaded).
Proof. repeat split; vm_compute; reflexivity. Qed.

(** C9.  For the registered sub-component type [memHierarchy.prefetcher],
    whose statistic ["hits"] is declared with enable level 3,
    [GetComponentInfoStatisticEnableLevel] returns 0: the library also
    registers components, and the branch for the component library returns
    before the sub-component library is looked at. *)
Theorem GetComponentInfoStatisticEnableLevel_subcomponent :
  getInfo
    (default ∅ (getLibrary (subComponentInfo (eli memHierarchy_loaded))
                  "memHierarchy")) "prefetcher" = Some prefetcher_info
  ∧ findEnableLevel (getValidStats prefetcher_info) "hits" = Some 3%Z
  ∧ GetComponentInfoStatisticEnableLevel no_libraries
      "memHierarchy.prefetcher" "hits" memHierarchy_loaded
    = Ret 0%Z memHierarchy_loaded.
Proof. repeat split; vm_compute; reflexivity. Qed.

(** ** The creation entry points *)

Lemma parseLoadName_returns type w :
  ∃ elemlib elem w0,
    parseLoadName type w = Ret (elemlib, elem) w0
    ∧ heap w0 = heap w ∧ scopeEvents w0 = scopeEvents w.
Proof.
  unfold parseLoadName. destruct (find_first_of "." type) as [found|].
  - by eexists _, _, _.
  - destruct (decide (type = "")); by eexists _, _, _.
Qed.

Section Creation.

Variable elemLoader : string → bool → ELI → bool * ELI.
Variable create : Builder → nat → M Object.

Lemma requireLibrary_returns elemlib w :
  ∃ w1, requireLibrary elemLoader elemlib w = Ret () w1
        ∧ heap w1 = heap w ∧ scopeEvents w1 = scopeEvents w.
Proof.
  unfold requireLibrary. destruct (decide (elemlib = "sst")).
  { by exists w. }
  run. rewrite findLibrary_run. case_bool_decide.
  { by exists w. }
  rewrite loadLibrary_run. cbv zeta. case_bool_decide; by eexists.
Qed.

Lemma prepare_run type w elemlib elem w0 w1 :
  parseLoadName type w = Ret (elemlib, elem) w0 →
  requireLibrary elemLoader elemlib w0 = Ret () w1 →
  prepare elemLoader type w = Ret (elemlib, elem) w1.
Proof. intros E0 E1. unfold prepare. run. by rewrite E0, E1. Qed.

Lemma prepare_returns type w :
  ∃ elemlib elem w0 w1,
    parseLoadName type w = Ret (elemlib, elem) w0
    ∧ requireLibrary elemLoader elemlib w0 = Ret () w1
    ∧ prepare elemLoader type w = Ret (elemlib, elem) w1.
Proof.
  destruct (parseLoadName_returns type w) as (elemlib & elem & w0 & E0 & _).
  destruct (requireLibrary_returns elemlib w0) as (w1 & E1 & _).
  exists elemlib, elem, w0, w1. eauto using prepare_run.
Qed.

(** C1 (amended).  The name is parsed and the library required; that part
    always returns.  If then the chain of lookups of the entry point
    misses, [CreateComponent], [CreateModule], [CreateModuleWithComponent],
    [CreateSubComponent] and [CreatePartitioner] end the process with
    their diagnostic: no instance is returned.  [getPythonModule] does not
    require the library and, on a miss, returns the null pointer. *)
Theorem creation_miss (type : string) (id comp params : nat)
    (total_ranks my_rank : nat * nat) (verbosity : Z) (w : World) :
  ∃ elemlib elem w0 w1,
    parseLoadName type w = Ret (elemlib, elem) w0
    ∧ prepare elemLoader type w = Ret (elemlib, elem) w1
    ∧ (resolve (componentInfo (eli w1)) (componentBuilders (eli w1))
         elemlib elem elem = None →
       CreateComponent elemLoader create id type params w
       = Fatal ("can't find requested component '" +:+ type +:+ "'") w1)
    ∧ (type ≠ "" →
       resolve (moduleInfo (eli w1)) (moduleBuilders (eli w1))
         elemlib elem elem = None →
       CreateModule elemLoader create type params w
       = Fatal ("can't find requested module '" +:+ type +:+ "'") w1)
    ∧ (resolve (moduleInfo (eli w1)) (moduleWithComponentBuilders (eli w1))
         elemlib elem elem = None →
       CreateModuleWithComponent elemLoader create type comp params w
       = Fatal ("can't find requested module '" +:+ type +:+ "'") w1)
    ∧ (resolve (subComponentInfo (eli w1)) (subComponentBuilders (eli w1))
         elemlib elem elem = None →
       CreateSubComponent elemLoader create type comp params w
       = Fatal ("can't find requested subcomponent '" +:+ type +:+ "'") w1)
    ∧ (resolve (partitionerInfo (eli w1)) (partitionerBuilders (eli w1))
         elemlib elem elem = None →
       CreatePartitioner elemLoader type total_ranks my_rank verbosity w
       = Fatal ("Error: Unable to find requested partitioner '" +:+ type
                  +:+ "', check --help for information on partitioners.")
           w1)
    ∧ (resolve (pythonModuleInfo (eli w0)) (pythonModuleBuilders (eli w0))
         elemlib elem elemlib = None →
       getPythonModule type w = Ret None w0).
Proof.
  destruct (prepare_returns type w)
    as (elemlib & elem & w0 & w1 & E0 & E1 & E).
  exists elemlib, elem, w0, w1. split; [done|]. split; [done|].
  repeat split.
  - intros Hmiss. unfold CreateComponent. run. rewrite E0, E1.
    by rewrite Hmiss.
  - intros Hne Hmiss. unfold CreateModule.
    rewrite decide_False by done. run. rewrite E0, E1. by rewrite Hmiss.
  - intros Hmiss. unfold CreateModuleWithComponent. run. rewrite E0, E1.
    by rewrite Hmiss.
  - intros Hmiss. unfold CreateSubComponent. run. rewrite E0, E1.
    by rewrite Hmiss.
  - intros Hmiss. unfold CreatePartitioner. run. rewrite E0, E1.
    by rewrite Hmiss.
  - intros Hmiss. unfold getPythonModule. run. rewrite E0.
    by rewrite Hmiss.
Qed.

(** C10.  [CreateModule] with the empty type string ends the process with
    its own diagnostic in the state it was called in: nothing has been
    logged, the loader has not been called, no instance is returned. *)
Theorem CreateModule_empty_type (params : nat) (w : World) :
  CreateModule elemLoader create "" params w = Fatal empty_module_error w
  ∧ (∀ ret w', CreateModule elemLoader create "" params w ≠ Ret ret w')
  ∧ parseLoadName "" w
    = Ret ("", "") (log_message (Output empty_name_warning) w).
Proof. repeat split. intros ret w'. discriminate. Qed.

End Creation.

(** C1, as stated, fails: the library [merlin] registers a scripting
    bridge without a builder, and [getPythonModule] returns the null pointer,
    without a diagnostic. *)
Lemma getPythonModule_returns_null :
  is_Some (getLibrary (pythonModuleInfo (eli merlin_python)) "merlin")
  ∧ getPythonModule "merlin" merlin_python = Ret None merlin_python.
Proof. split; [by eexists | vm_compute; reflexivity]. Qed.

Lemma creation_miss_witness :
  CreateSubComponent no_libraries (λ _ _, mret (Inst "" []))
    "memHierarchy.Cache" 0 0 memHierarchy_loaded
  = Fatal "can't find requested subcomponent 'memHierarchy.Cache'"
      memHierarchy_loaded.
Proof.
  destruct (creation_miss no_libraries (λ _ _, mret (Inst "" []))
              "memHierarchy.Cache" 0 0 0 (1, 1) (1, 1) 0 memHierarchy_loaded)
    as (elemlib & elem & w0 & w1 & E0 & E & _ & _ & _ & Hsub & _).
  vm_compute in E. injection E as <- <- <-.
  rewrite Hsub; [reflexivity | vm_compute; reflexivity].
Defined.

(** ** The allowed-key scope *)

Lemma elem_of_dom_scope w a : a ∈ dom (heap w) ↔ is_Some (scope w a).
Proof. unfold scope. rewrite elem_of_dom, fmap_is_Some. done. Qed.

Lemma scope_neutral_same {A} (m : M A) :
  (∀ w v w', m w = Ret v w' →
             heap w' = heap w ∧ scopeEvents w' = scopeEvents w) →
  scope_neutral m.
Proof.
  intros H w v w' E. apply H in E as [Hh He]. split.
  - intros a _. unfold scope. by rewrite Hh.
  - exists []. rewrite app_nil_r. split; [done | constructor].
Qed.

Lemma scope_neutral_bind {A B} (m : M A) (k : A → M B) :
  scope_neutral m → (∀ a, scope_neutral (k a)) → scope_neutral (m ≫= k).
Proof.
  intros Hm Hk w v w' E. unfold mbind, M_bind in E.
  destruct (m w) as [a w1| | |] eqn:E1; try discriminate.
  apply Hm in E1 as [Hs1 (t1 & He1 & Hb1)].
  apply Hk in E as [Hs2 (t2 & He2 & Hb2)]. split.
  - intros x Hx. rewrite Hs2, Hs1; [done|done|].
    apply elem_of_dom_scope. rewrite Hs1 by done.
    by apply elem_of_dom_scope.
  - exists (t1 ++ t2). rewrite He2, He1, app_assoc.
    split; [done | by constructor].
Qed.

Lemma scope_neutral_ret {A} (a : A) : scope_neutral (mret a).
Proof. apply scope_neutral_same. by intros w v w' [= _ <-]. Qed.

Lemma scope_neutral_gets {A} (f : World → A) : scope_neutral (gets f).
Proof. apply scope_neutral_same. by intros w v w' [= _ <-]. Qed.

Lemma scope_neutral_fatal {A} msg : scope_neutral (fatal (A:=A) msg).
Proof. intros w v w' [=]. Qed.

Lemma scope_neutral_parseLoadName type : scope_neutral (parseLoadName type).
Proof.
  apply scope_neutral_same. intros w v w' E.
  destruct (parseLoadName_returns type w) as (l & e & w0 & E0 & Hh & He).
  rewrite E0 in E. by injection E as _ <-.
Qed.

Lemma scope_neutral_requireLibrary elemLoader elemlib :
  scope_neutral (requireLibrary elemLoader elemlib).
Proof.
  apply scope_neutral_same. intros w v w' E.
  destruct (requireLibrary_returns elemLoader elemlib w) as (w1 & E1 & Hh & He).
  rewrite E1 in E. by simplify_eq.
Qed.

Lemma scope_neutral_setAllowedPorts id ports :
  scope_neutral (setAllowedPorts id ports).
Proof.
  apply scope_neutral_same. intros w v w'. unfold setAllowedPorts. run.
  destruct (linkMaps w !! id); [|discriminate]. by intros [= _ <-].
Qed.

Lemma scope_neutral_set_loadingComponentType t :
  scope_neutral (modify (set_loadingComponentType t)).
Proof. apply scope_neutral_same. by intros w v w' [= _ <-]. Qed.

Lemma scope_neutral_newParams d : scope_neutral (newParams d).
Proof.
  intros w v w'. unfold newParams. run. intros [= _ <-]. split.
  - intros a Ha. unfold scope. simpl. rewrite lookup_insert_ne; [done|].
    intros <-. by apply is_fresh in Ha.
  - exists []. rewrite app_nil_r. split; [done | constructor].
Qed.

(** A push, a scope-neutral call, the pop, and a scope-neutral rest. *)
Lemma scope_neutral_bracket {A B} params keys (m : M A) (k : A → M B) :
  scope_neutral m → (∀ r, scope_neutral (k r)) →
  scope_neutral (params_pushAllowedKeys params keys;;
                 ret ← m;
                 params_popAllowedKeys params;;
                 k ret).
Proof.
  intros Hm Hk w v w'. unfold params_pushAllowedKeys, params_popAllowedKeys.
  run.
  set (wa := log_scopeEvent (Pushed params keys)
               (set_heap (alter (pushAllowedKeys keys) params) w)).
  destruct (m wa) as [r wb| | |] eqn:Em; try discriminate.
  set (wc := log_scopeEvent (Popped params)
               (set_heap (alter popAllowedKeys params) wb)).
  intros Ek.
  apply Hm in Em as [Hsm (tm & Hem & Hbm)].
  assert (∀ a, a ∈ dom (heap w) → scope wc a = scope w a) as Hs.
  { intros a Ha.
    assert (a ∈ dom (heap wa)) as Ha' by (simpl; by rewrite dom_alter_L).
    specialize (Hsm a Ha'). revert Hsm. unfold scope. simpl.
    rewrite !lookup_alter. destruct (decide (params = a)) as [->|Hne].
    - intros H. destruct (heap wb !! a) as [pb|], (heap w !! a) as [p0|];
        simpl in *; try done.
      injection H as H. by rewrite H.
    - done. }
  apply Hk in Ek as [Hsk (tk & Hek & Hbk)]. split.
  - intros a Ha. rewrite Hsk, Hs; [done|done|].
    apply elem_of_dom_scope. rewrite Hs by done. by apply elem_of_dom_scope.
  - exists ((Pushed params keys :: tm ++ [Popped params]) ++ tk).
    split; [|by repeat constructor].
    rewrite Hek. simpl. rewrite Hem. simpl.
    by rewrite <- !app_assoc.
Qed.

Section Scope.

Variable elemLoader : string → bool → ELI → bool * ELI.

Section NeutralEntryPoints.

Variable create : Builder → nat → M Object.
Hypothesis create_neutral : ∀ b params, scope_neutral (create b params).

Lemma scope_neutral_CreateComponent id type params :
  scope_neutral (CreateComponent elemLoader create id type params).
Proof.
  unfold CreateComponent.
  apply scope_neutral_bind; [apply scope_neutral_parseLoadName|].
  intros [elemlib elem].
  apply scope_neutral_bind; [apply scope_neutral_requireLibrary|].
  intros _. apply scope_neutral_bind; [apply scope_neutral_gets|].
  intros [[compInfo fact]|]; [|apply scope_neutral_fatal].
  apply scope_neutral_bind; [apply scope_neutral_setAllowedPorts|].
  intros _.
  apply scope_neutral_bind; [apply scope_neutral_set_loadingComponentType|].
  intros _. apply scope_neutral_bracket; [done|].
  intros r.
  apply scope_neutral_bind; [apply scope_neutral_set_loadingComponentType|].
  intros _. apply scope_neutral_ret.
Qed.

Lemma scope_neutral_CreateModule type params :
  scope_neutral (CreateModule elemLoader create type params).
Proof.
  unfold CreateModule. apply scope_neutral_bind.
  { destruct (decide ("" = type));
      [apply scope_neutral_fatal | apply scope_neutral_ret]. }
  intros _.
  apply scope_neutral_bind; [apply scope_neutral_parseLoadName|].
  intros [elemlib elem].
  apply scope_neutral_bind; [apply scope_neutral_requireLibrary|].
  intros _. apply scope_neutral_bind; [apply scope_neutral_gets|].
  intros [[info fact]|]; [|apply scope_neutral_fatal].
  apply scope_neutral_bracket; [done|].
  intros r. apply scope_neutral_ret.
Qed.

Lemma scope_neutral_CreateModuleWithComponent type comp params :
  scope_neutral
    (CreateModuleWithComponent elemLoader create type comp params).
Proof.
  unfold CreateModuleWithComponent.
  apply scope_neutral_bind; [apply scope_neutral_parseLoadName|].
  intros [elemlib elem].
  apply scope_neutral_bind; [apply scope_neutral_requireLibrary|].
  intros _. apply scope_neutral_bind; [apply scope_neutral_gets|].
  intros [[info fact]|]; [|apply scope_neutral_fatal].
  apply scope_neutral_bracket; [done|].
  intros r. apply scope_neutral_ret.
Qed.

Lemma scope_neutral_CreateSubComponent type comp params :
  scope_neutral (CreateSubComponent elemLoader create type comp params).
Proof.
  unfold CreateSubComponent.
  apply scope_neutral_bind; [apply scope_neutral_parseLoadName|].
  intros [elemlib elem].
  apply scope_neutral_bind; [apply scope_neutral_requireLibrary|].
  intros _. apply scope_neutral_bind; [apply scope_neutral_gets|].
  intros [[info fact]|]; [|apply scope_neutral_fatal].
  apply scope_neutral_bracket; [done|].
  intros r. apply scope_neutral_ret.
Qed.

End NeutralEntryPoints.

Lemma scope_neutral_run_script construct steps params :
  (∀ c p, scope_neutral (construct c p)) →
  scope_neutral (run_script construct steps params).
Proof.
  intros Hc. induction steps as [|[c arg] rest IH]; simpl.
  { apply scope_neutral_ret. }
  apply scope_neutral_bind.
  { destruct arg; [apply scope_neutral_ret | apply scope_neutral_newParams]. }
  intros p. apply scope_neutral_bind; [apply Hc|].
  intros i. apply scope_neutral_bind; [apply IH|].
  intros others. apply scope_neutral_ret.
Qed.

Lemma scope_neutral_construct fuel c params :
  scope_neutral (construct elemLoader fuel c params).
Proof.
  revert c params. induction fuel as [|fuel IH]; intros c params.
  { intros w v w' [=]. }
  assert (∀ b p, scope_neutral
            (parts ← run_script (construct elemLoader fuel) (script b) p;
             mret (Inst (product_name b) parts))) as Hcreate.
  { intros b p. apply scope_neutral_bind.
    - by apply scope_neutral_run_script.
    - intros parts. apply scope_neutral_ret. }
  destruct c; simpl.
  - by apply scope_neutral_CreateComponent.
  - by apply scope_neutral_CreateModule.
  - by apply scope_neutral_CreateModuleWithComponent.
  - by apply scope_neutral_CreateSubComponent.
Qed.

(** C2.  A creation call that returns, with builders that call back into
    the factory to any depth, leaves the allowed-key scope of the
    parameter container it was given, and of every other existing
    container, as it was before the call; the pushes and pops made during
    the call are matched and strictly nested. *)
Theorem construct_restores_scope (fuel : nat) (c : Construction)
    (params : nat) (w w' : World) (ret : Object) :
  params ∈ dom (heap w) →
  construct elemLoader fuel c params w = Ret ret w' →
  scope w' params = scope w params
  ∧ (∀ a, a ∈ dom (heap w) → scope w' a = scope w a)
  ∧ ∃ t, scopeEvents w' = scopeEvents w ++ t ∧ balanced t.
Proof.
  intros Hin E.
  pose proof (scope_neutral_construct fuel c params w ret w' E) as [Hs Ht].
  split; [by apply Hs | by split].
Qed.

End Scope.

Lemma construct_restores_scope_witness :
  ∃ parts w',
    construct no_libraries 3 (ConsComponent 7 "net.nic") 0 net_world
    = Ret (Inst "nic" parts) w'
    ∧ scope w' 0 = Some [{["top"]}]
    ∧ length (scopeEvents w') = 8%nat.
Proof.
  assert (∃ parts w',
            construct no_libraries 3 (ConsComponent 7 "net.nic") 0 net_world
            = Ret (Inst "nic" parts) w'
            ∧ length (scopeEvents w') = 8%nat) as (parts & w' & E & Hlen).
  { eexists _, _. split; vm_compute; reflexivity. }
  exists parts, w'. split; [exact E|]. split; [|exact Hlen].
  destruct (construct_restores_scope no_libraries 3 _ 0 net_world w' _
              ltac:(apply (bool_decide_unpack _); vm_compute; reflexivity) E)
    as [Hs _].
  rewrite Hs. vm_compute. reflexivity.
Defined.

(** * Further properties *)

(** ** More on the port-pattern matcher *)

Lemma render_chars_Lit (l : list ascii) : render_chars (Lit <$> l) = l.
Proof.
  unfold render_chars. induction l as [|c l IH]; simpl; [done|].
  f_equal. exact IH.
Qed.

Lemma render_chars_app p q :
  render_chars (p ++ q) = render_chars p ++ render_chars q.
Proof. unfold render_chars. apply flat_map_app. Qed.

Lemma string_of_list_ascii_app a b :
  string_of_list_ascii (a ++ b)
  = string_of_list_ascii a +:+ string_of_list_ascii b.
Proof. induction a as [|c a IH]; simpl; [done | by rewrite IH]. Qed.

Lemma render_Lit (s : string) : render (Lit <$> list_ascii_of_string s) = s.
Proof.
  unfold render. by rewrite render_chars_Lit, string_of_list_ascii_of_string.
Qed.

Lemma list_ascii_of_string_inj a b :
  list_ascii_of_string a = list_ascii_of_string b → a = b.
Proof.
  intros H. rewrite <- (string_of_list_ascii_of_string a),
    <- (string_of_list_ascii_of_string b). by rewrite H.
Qed.

Lemma wf_token_Lit (l : list ascii) :
  NUL ∉ l → "%"%char ∉ l → Forall wf_token (Lit <$> l).
Proof.
  induction l as [|c l IH]; simpl; intros Hz Hp; [constructor|].
  apply not_elem_of_cons in Hz as [Hz1 Hz], Hp as [Hp1 Hp].
  constructor; [split; congruence | by apply IH].
Qed.

Lemma adjacent_free_Lit (l : list ascii) : adjacent_free (Lit <$> l).
Proof. induction l as [|c l IH]; simpl; [done | by destruct l]. Qed.

Lemma compare_tokens_Lit (l y : list ascii) :
  compare_tokens (Lit <$> l) y = bool_decide (l = y).
Proof.
  revert y. induction l as [|c l IH]; intros y.
  { simpl. apply bool_decide_ext. split; congruence. }
  destruct y as [|c' y]; [by rewrite bool_decide_false|].
  change (compare_tokens (Lit <$> c :: l) (c' :: y))
    with (Ascii.eqb c c' &&
          match Lit <$> l, y with
          | [], [] => true
          | [], _ :: _ => false
          | _ :: _, [] => false
          | Digits _ :: p'', _ :: _ => compare_tokens p'' (drop_digits y)
          | Lit _ :: _, _ :: _ => compare_tokens (Lit <$> l) y
          end).
  destruct (Ascii.eqb_spec c c') as [<-|Hne]; simpl.
  - destruct l as [|c2 l], y as [|c3 y]; simpl fmap; cbv iota.
    + by rewrite bool_decide_true.
    + by rewrite bool_decide_false.
    + by rewrite bool_decide_false.
    + rewrite IH. apply bool_decide_ext. split; congruence.
  - rewrite bool_decide_false; [done | congruence].
Qed.

(** X1.  A pattern without the marker character, other than ["*"],
    accepts its own text and nothing else. *)
Theorem checkPort_literal (def offered : string) :
  NUL ∉ list_ascii_of_string def →
  "%"%char ∉ list_ascii_of_string def →
  def ≠ "*" →
  NUL ∉ list_ascii_of_string offered →
  checkPort def offered = Got (bool_decide (def = offered)).
Proof.
  intros Hz Hp Hstar Hy.
  rewrite <- (render_Lit def) at 1.
  rewrite checkPort_tokens; [| |done|].
  - f_equal. unfold scan_tokens.
    transitivity (compare_tokens (Lit <$> list_ascii_of_string def)
                    (list_ascii_of_string offered)).
    { by destruct (list_ascii_of_string def). }
    rewrite compare_tokens_Lit. apply bool_decide_ext.
    split; [apply list_ascii_of_string_inj | by intros ->].
  - split; [by apply wf_token_Lit|].
    intros E. apply Hstar. apply list_ascii_of_string_inj.
    destruct (list_ascii_of_string def) as [|c [|c' l]]; simpl in E;
      [discriminate | | discriminate].
    injection E as ->. reflexivity.
  - left. apply adjacent_free_Lit.
Qed.

Lemma checkPort_literal_witness :
  checkPort "exact" "exact" = Got true
  ∧ checkPort "exact" "exactly" = Got false
  ∧ checkPort "exact" "exac" = Got false.
Proof.
  split; [|split].
  - apply (checkPort_literal "exact" "exact");
      first [by intros [=] | apply (bool_decide_unpack _); vm_compute; reflexivity].
  - apply (checkPort_literal "exact" "exactly");
      first [by intros [=] | apply (bool_decide_unpack _); vm_compute; reflexivity].
  - apply (checkPort_literal "exact" "exac");
      first [by intros [=] | apply (bool_decide_unpack _); vm_compute; reflexivity].
Defined.

Lemma drop_digits_head (y : list ascii) c y' :
  drop_digits y = c :: y' → isdigit c = false.
Proof.
  induction y as [|a y IH]; simpl; [done|].
  destruct (isdigit a) eqn:E; [done|]. by intros [= <- _].
Qed.

Lemma drop_digits_nondigit (y : list ascii) :
  isdigit (hd NUL y) = false → drop_digits y = y.
Proof. destruct y as [|c y]; simpl; [done|]. by intros ->. Qed.

Lemma Forall_wf_token_app p q :
  Forall wf_token p → Forall wf_token q → Forall wf_token (p ++ q).
Proof. intros. by apply Forall_app. Qed.

Lemma adjacent_free_Lit_app (A : list ascii) p :
  adjacent_free p → adjacent_free ((Lit <$> A) ++ p).
Proof.
  intros Hp. induction A as [|c A IH]; [done|].
  change (adjacent_free ((Lit <$> A) ++ p)). exact IH.
Qed.

Lemma compare_tokens_no_digits (A B : list ascii) n c :
  isdigit (hd NUL B) = false →
  compare_tokens (Lit c :: (Lit <$> A) ++ Digits n :: (Lit <$> B))
    (c :: A ++ B)
  = bool_decide (B ≠ []).
Proof.
  intros HB. revert c. induction A as [|a A IH]; intros c.
  - change (compare_tokens (Lit c :: (Lit <$> []) ++ Digits n :: (Lit <$> B))
              (c :: [] ++ B))
      with (Ascii.eqb c c &&
            match B with
            | [] => false
            | _ :: _ => compare_tokens (Lit <$> B) (drop_digits B)
            end).
    rewrite Ascii.eqb_refl. simpl. destruct B as [|b B].
    + by rewrite bool_decide_false by (by intros []).
    + rewrite drop_digits_nondigit by done. rewrite compare_tokens_Lit.
      by rewrite !bool_decide_true.
  - change (compare_tokens
              (Lit c :: (Lit <$> a :: A) ++ Digits n :: (Lit <$> B))
              (c :: (a :: A) ++ B))
      with (Ascii.eqb c c &&
            compare_tokens (Lit a :: (Lit <$> A) ++ Digits n :: (Lit <$> B))
              (a :: A ++ B)).
    rewrite Ascii.eqb_refl. simpl. apply IH.
Qed.

(** X2.  A placeholder between literal text takes the empty run of digits
    when it stands at the start of the pattern or when literal text follows
    it, and not when it ends a pattern that has text before it: for literal
    [pre] and [post], [post] not starting with a digit, the pattern
    [pre%dpost] accepts [prepost] exactly if [pre] is empty or [post] is
    not. *)
Theorem checkPort_no_digits (pre post : string) :
  NUL ∉ list_ascii_of_string pre → "%"%char ∉ list_ascii_of_string pre →
  NUL ∉ list_ascii_of_string post → "%"%char ∉ list_ascii_of_string post →
  isdigit (hd NUL (list_ascii_of_string post)) = false →
  checkPort (pre +:+ "%d" +:+ post) (pre +:+ post)
  = Got (bool_decide (pre = "" ∨ post ≠ "")).
Proof.
  intros Hz1 Hp1 Hz2 Hp2 Hd.
  assert (pre +:+ "%d" +:+ post
          = render ((Lit <$> list_ascii_of_string pre)
                      ++ Digits None :: (Lit <$> list_ascii_of_string post)))
    as ->.
  { unfold render. rewrite render_chars_app, render_chars_Lit.
    change (render_chars (Digits None :: (Lit <$> ?l)))
      with (["%"; "d"]%char ++ render_chars (Lit <$> l)).
    rewrite render_chars_Lit, !string_of_list_ascii_app.
    by rewrite !string_of_list_ascii_of_string. }
  assert (pre = "" ↔ list_ascii_of_string pre = []) as Hpre.
  { split; [by intros -> | by destruct pre]. }
  assert (post = "" ↔ list_ascii_of_string post = []) as Hpost.
  { split; [by intros -> | by destruct post]. }
  rewrite checkPort_tokens.
  - f_equal. rewrite list_ascii_of_string_app.
    rewrite (bool_decide_ext _
               (list_ascii_of_string pre = [] ∨ list_ascii_of_string post ≠ []))
      by (by rewrite Hpre, Hpost).
    destruct (list_ascii_of_string pre) as [|a A].
    + rewrite bool_decide_true by (by left).
      change (compare_tokens (Lit <$> list_ascii_of_string post)
                (drop_digits (list_ascii_of_string post)) = true).
      rewrite drop_digits_nondigit by done.
      by rewrite compare_tokens_Lit, bool_decide_true.
    + change (scan_tokens
                ((Lit <$> a :: A) ++ Digits None
                   :: (Lit <$> list_ascii_of_string post))
                ((a :: A) ++ list_ascii_of_string post))
        with (compare_tokens
                (Lit a :: (Lit <$> A) ++ Digits None
                   :: (Lit <$> list_ascii_of_string post))
                (a :: A ++ list_ascii_of_string post)).
      rewrite compare_tokens_no_digits by done.
      apply bool_decide_ext. split; [by right | by intros [|]].
  - split.
    + apply Forall_wf_token_app; [by apply wf_token_Lit|].
      constructor; [done | by apply wf_token_Lit].
    + destruct (list_ascii_of_string pre) as [|a [|a' A]]; simpl; congruence.
  - rewrite list_ascii_of_string_app. intros [H|H]%elem_of_app; done.
  - left. apply adjacent_free_Lit_app.
    change (adjacent_free (Lit <$> (hd NUL [] :: list_ascii_of_string post)))
      || idtac.
    destruct (list_ascii_of_string post) as [|b B]; [done|].
    apply (adjacent_free_Lit (b :: B)).
Qed.

Lemma checkPort_no_digits_witness :
  checkPort "port%d" "port" = Got false
  ∧ checkPort "%d_in" "_in" = Got true.
Proof.
  split.
  - apply (checkPort_no_digits "port" "");
      first [reflexivity | apply (bool_decide_unpack _); vm_compute; reflexivity].
  - apply (checkPort_no_digits "" "_in");
      first [reflexivity | apply (bool_decide_unpack _); vm_compute; reflexivity].
Defined.

Lemma matchPort_spec_digit_literal nonempty pre n c post y :
  isdigit c = true →
  matchPort_spec nonempty (pre ++ Digits n :: Lit c :: post) y = false.
Proof.
  intros Hc. revert y. induction pre as [|t pre IH]; intros y.
  - simpl. destruct (drop_digits y) as [|c' y'] eqn:E.
    { by rewrite andb_false_r. }
    apply drop_digits_head in E.
    destruct (Ascii.eqb_spec c c') as [->|_]; [congruence|].
    by rewrite andb_false_r.
  - destruct t as [d|m]; simpl.
    + destruct y as [|c' y']; [done|]. by rewrite IH, andb_false_r.
    + by rewrite IH, andb_false_r.
Qed.

(** X3.  The digits of a placeholder are taken greedily and never given
    back: a pattern in which a placeholder is directly followed by a literal
    digit accepts no candidate, as long as no placeholder of the pattern
    directly follows another one or the candidate does not contain the
    marker character. *)
Theorem checkPort_digit_after_placeholder (pre post : list Token)
    (n : option string) (c : ascii) (offered : string) :
  wf_pattern (pre ++ Digits n :: Lit c :: post) →
  isdigit c = true →
  NUL ∉ list_ascii_of_string offered →
  adjacent_free (pre ++ Digits n :: Lit c :: post)
  ∨ "%"%char ∉ list_ascii_of_string offered →
  checkPort (render (pre ++ Digits n :: Lit c :: post)) offered = Got false.
Proof.
  intros Hwf Hc Hy Hadj. rewrite checkPort_tokens by done. f_equal.
  destruct (scan_tokens _ _) eqn:E; [|done].
  apply scan_tokens_sound in E.
  by rewrite matchPort_spec_digit_literal in E.
Qed.

Lemma checkPort_digit_after_placeholder_witness :
  checkPort "bus%d0" "bus10" = Got false.
Proof.
  apply (checkPort_digit_after_placeholder
           [Lit "b"; Lit "u"; Lit "s"] [] None "0" "bus10").
  - split.
    + repeat constructor; simpl; intros [=].
    + intros [=].
  - reflexivity.
  - apply (bool_decide_unpack _). vm_compute. reflexivity.
  - left. simpl. exact I.
Defined.

(** ** More on names and library loading *)

(** X4.  Joining the two parts of a parsed name with the separator gives
    the name back, and the library part contains no separator; a name
    without separator comes back as both parts. *)
Theorem parseLoadName_rejoin (name lib elem : string) (w w' : World) :
  parseLoadName name w = Ret (lib, elem) w' →
  ¬ has_separator lib
  ∧ (has_separator name → name = lib +:+ "." +:+ elem)
  ∧ (¬ has_separator name → lib = name ∧ elem = name).
Proof.
  intros E. destruct (name_shape name) as [Hno | (a & b & -> & Ha)].
  - pose proof Hno as Hnone. apply find_first_of_None in Hnone.
    unfold parseLoadName in E. rewrite Hnone in E.
    destruct (decide (name = "")); injection E as <- <- _; done.
  - unfold parseLoadName in E.
    change (a +:+ "." +:+ b) with (a +:+ String "." b) in E.
    rewrite find_first_of_app in E by done.
    rewrite substring_prefix, length_app_String, substring_suffix,
      substring_all in E.
    injection E as <- <- _. split; [done|]. split; [done|].
    intros Hno. exfalso. apply Hno. unfold has_separator.
    change (a +:+ "." +:+ b) with (a +:+ String "." b).
    rewrite list_ascii_of_string_app. apply elem_of_app. right. left.
Qed.

Lemma parseLoadName_rejoin_witness :
  "memHierarchy.Cache" = "memHierarchy" +:+ "." +:+ "Cache".
Proof.
  refine (proj1 (proj2 (parseLoadName_rejoin "memHierarchy.Cache"
            "memHierarchy" "Cache" memHierarchy_loaded memHierarchy_loaded
            _)) _).
  - vm_compute. reflexivity.
  - apply (bool_decide_unpack _). vm_compute. reflexivity.
Defined.

Section MoreLoading.

Variable elemLoader : string → bool → ELI → bool * ELI.
Variable showErrors_default : bool.

(** X5.  What [findLibrary] returns says whether the name is in the set of
    loaded libraries afterwards.  When it returns false the set is as
    before and the loader has been called once, with the flag given. *)
Theorem findLibrary_result (name : string) (showErrors ok : bool)
    (w w' : World) :
  findLibrary elemLoader name showErrors w = Ret ok w' →
  (ok = true ↔ name ∈ loaded_libraries w')
  ∧ (ok = false →
     loaded_libraries w' = loaded_libraries w
     ∧ loaderCalls w' = loaderCalls w ++ [(name, showErrors)]).
Proof.
  rewrite findLibrary_run. case_bool_decide as Hin.
  { intros [= <- <-]. split; [done | discriminate]. }
  rewrite loadLibrary_run. cbv zeta.
  case_bool_decide as Hreg; intros [= <- <-]; simpl.
  - split; [|discriminate]. split; [intros _; set_solver | done].
  - split; [|done]. split; [discriminate | done].
Qed.

(** X6.  A load that fails is not remembered: after [findLibrary] has
    returned false for a name, the next [findLibrary] for it calls the
    loader again. *)
Theorem failed_load_is_retried (name : string) (showErrors showErrors' : bool)
    (w w1 : World) :
  findLibrary elemLoader name showErrors w = Ret false w1 →
  ∃ ok w2,
    findLibrary elemLoader name showErrors' w1 = Ret ok w2
    ∧ loaderCalls w2
      = loaderCalls w ++ [(name, showErrors); (name, showErrors')].
Proof.
  intros E.
  destruct (findLibrary_returns elemLoader name showErrors w)
    as (ok & w1' & E' & Hok & _ & Hsame & Hcall).
  rewrite E in E'. injection E' as <- <-.
  assert (name ∉ loaded_libraries w1) as Hnot1.
  { intros Hin. apply Hok in Hin. discriminate. }
  assert (name ∉ loaded_libraries w) as Hnot.
  { intros Hin. apply Hnot1. by rewrite (Hsame Hin). }
  destruct (findLibrary_returns elemLoader name showErrors' w1)
    as (ok2 & w2 & E2 & _ & _ & _ & Hcall2).
  exists ok2, w2. split; [done|].
  rewrite (Hcall2 Hnot1), (Hcall Hnot), <- app_assoc. done.
Qed.

(** X7.  For a name that is not loaded, [hasLibrary] calls the loader once
    with error reporting off, and [requireLibrary] once with error reporting
    on; [requireLibrary] returns also when the library could not be loaded,
    and for the name ["sst"] it does nothing at all. *)
Theorem probe_and_require (name : string) (w : World) :
  name ∉ loaded_libraries w →
  (∃ ok w', hasLibrary elemLoader name w = Ret ok w'
            ∧ loaderCalls w' = loaderCalls w ++ [(name, false)]
            ∧ (ok = true ↔ name ∈ loaded_libraries w'))
  ∧ (name ≠ "sst" →
     ∃ w', requireLibrary elemLoader name w = Ret () w'
           ∧ loaderCalls w' = loaderCalls w ++ [(name, true)])
  ∧ requireLibrary elemLoader "sst" w = Ret () w.
Proof.
  intros Hnot. split; [|split; [|done]].
  - destruct (findLibrary_returns elemLoader name false w)
      as (ok & w' & E & Hok & _ & _ & Hcall).
    exists ok, w'. split; [done|]. split; [by apply Hcall | done].
  - intros Hne. unfold requireLibrary. rewrite decide_False by done.
    destruct (findLibrary_returns elemLoader name true w)
      as (ok & w' & E & _ & _ & _ & Hcall).
    exists w'. run. rewrite E. split; [done | by apply Hcall].
Qed.

(** X8.  [RequireEvent] only requires the library named by the part
    before the first separator; the event part plays no role. *)
Theorem RequireEvent_ignores_event (lib event : string) (w : World) :
  ¬ has_separator lib →
  RequireEvent elemLoader (lib +:+ "." +:+ event) w
  = requireLibrary elemLoader lib w.
Proof.
  intros Hlib. unfold RequireEvent. run.
  unfold parseLoadName.
  change (lib +:+ "." +:+ event) with (lib +:+ String "." event).
  rewrite find_first_of_app by done. cbv zeta.
  rewrite substring_prefix. reflexivity.
Qed.

Lemma loadUnloadedLibraries_loaded (names : list string) (w : World) :
  (∀ n, n ∈ names → n ∈ loaded_libraries w) →
  loadUnloadedLibraries elemLoader showErrors_default names w = Ret () w.
Proof.
  induction names as [|n names IH]; intros Hall; simpl; [done|].
  run. rewrite findLibrary_run, bool_decide_true by (apply Hall; left).
  apply IH. intros m Hm. apply Hall. by right.
Qed.

(** X9.  [getLoadedLibraryNames] adds the loaded libraries to the set it
    is given and changes nothing; loading the names it reports, in any
    order, on the same factory changes nothing and does not call the
    loader. *)
Theorem loadUnloadedLibraries_own_names (lib_names reported : gset string)
    (names : list string) (w w' : World) :
  getLoadedLibraryNames lib_names w = Ret reported w' →
  (∀ n, n ∈ names → n ∈ reported ∖ lib_names) →
  w' = w
  ∧ reported = lib_names ∪ loaded_libraries w
  ∧ loadUnloadedLibraries elemLoader showErrors_default names w = Ret () w.
Proof.
  intros [= <- <-] Hnames. split; [done|]. split; [done|].
  apply loadUnloadedLibraries_loaded. intros n Hn.
  apply Hnames in Hn. apply elem_of_difference in Hn as [Hn Hnot].
  by apply elem_of_union in Hn as [Hn|Hn].
Qed.

End MoreLoading.

Lemma findLibrary_result_witness :
  "merlin" ∉ loaded_libraries (after_loader no_libraries "merlin" false
                                 (newFactory empty_ELI ∅ ∅)).
Proof.
  pose proof (findLibrary_result no_libraries "merlin" false false
                (newFactory empty_ELI ∅ ∅) _
                ltac:(vm_compute; reflexivity)) as [Hok _].
  intros Hin. apply Hok in Hin. discriminate.
Defined.

Lemma failed_load_is_retried_witness :
  ∃ ok w2,
    findLibrary no_libraries "merlin" false
      (after_loader no_libraries "merlin" true (newFactory empty_ELI ∅ ∅))
    = Ret ok w2
    ∧ loaderCalls w2 = [("merlin", true); ("merlin", false)].
Proof.
  exact (failed_load_is_retried no_libraries "merlin" true false
           (newFactory empty_ELI ∅ ∅) _ ltac:(vm_compute; reflexivity)).
Defined.

Lemma probe_and_require_witness :
  ∃ w', requireLibrary no_libraries "merlin" (newFactory empty_ELI ∅ ∅)
        = Ret () w'
        ∧ loaderCalls w' = [("merlin", true)].
Proof.
  refine (proj1 (proj2 (probe_and_require no_libraries "merlin"
            (newFactory empty_ELI ∅ ∅) _)) _).
  - apply (bool_decide_unpack _). vm_compute. reflexivity.
  - intros [=].
Defined.

Lemma RequireEvent_ignores_event_witness :
  RequireEvent registering_loader "merlin.credit" (newFactory empty_ELI ∅ ∅)
  = requireLibrary registering_loader "merlin" (newFactory empty_ELI ∅ ∅).
Proof.
  apply (RequireEvent_ignores_event registering_loader "merlin" "credit").
  apply (bool_decide_unpack _). vm_compute. reflexivity.
Defined.

Lemma loadUnloadedLibraries_own_names_witness :
  loadUnloadedLibraries no_libraries true ["memHierarchy"; "sst"]
    memHierarchy_loaded
  = Ret () memHierarchy_loaded.
Proof.
  refine (proj2 (proj2 (loadUnloadedLibraries_own_names no_libraries true
            ∅ {["sst"; "memHierarchy"]} ["memHierarchy"; "sst"]
            memHierarchy_loaded memHierarchy_loaded _ _))).
  - vm_compute. reflexivity.
  - intros n Hn. apply (bool_decide_unpack _).
    repeat (apply elem_of_cons in Hn as [->|Hn]; [vm_compute; reflexivity|]).
    by apply elem_of_nil in Hn.
Defined.

(** ** More on the creation entry points *)

Lemma bind_Ret {A B} (m : M A) (k : A → M B) w v w' :
  (m ≫= k) w = Ret v w' → ∃ a w1, m w = Ret a w1 ∧ k a w1 = Ret v w'.
Proof.
  unfold mbind, M_bind. destruct (m w) as [a w1| | |]; try done. eauto.
Qed.

Lemma prepare_inv elemLoader type w elemlib elem w1 :
  prepare elemLoader type w = Ret (elemlib, elem) w1 →
  ∃ w0, parseLoadName type w = Ret (elemlib, elem) w0
        ∧ requireLibrary elemLoader elemlib w0 = Ret () w1.
Proof.
  unfold prepare. intros ([l e] & w0 & E0 & E)%bind_Ret.
  apply bind_Ret in E as ([] & w1' & E1 & E). injection E as <- <- <-.
  eauto.
Qed.

Section MoreCreation.

Variable elemLoader : string → bool → ELI → bool * ELI.
Variable create : Builder → nat → M Object.

(** X10.  [CreateComponent] does not restore the type it found in
    [loadingComponentType]: whenever it returns, the field is empty, also
    when the call was made by the builder of another component. *)
Theorem CreateComponent_clears_type (id : nat) (type : string) (params : nat)
    (w w' : World) (ret : Object) :
  CreateComponent elemLoader create id type params w = Ret ret w' →
  loadingComponentType w' = "".
Proof.
  unfold CreateComponent.
  intros ([elemlib elem] & w0 & _ & E)%bind_Ret.
  apply bind_Ret in E as ([] & w1 & _ & E).
  apply bind_Ret in E as (found & w2 & _ & E).
  destruct found as [[compInfo fact]|]; [|discriminate].
  apply bind_Ret in E as ([] & w3 & _ & E).
  apply bind_Ret in E as ([] & w4 & _ & E).
  apply bind_Ret in E as ([] & w5 & _ & E).
  apply bind_Ret in E as (r & w6 & _ & E).
  apply bind_Ret in E as ([] & w7 & _ & E).
  apply bind_Ret in E as ([] & w8 & E8 & E).
  injection E8 as <-. by injection E as _ <-.
Qed.

(** X11.  On a hit, [CreateSubComponent] enters the builder with the
    declared parameter names of the element pushed on the container, and
    returns the object the builder returns, in the state the builder left
    with that push popped. *)
Theorem CreateSubComponent_hit (type : string) (comp params : nat)
    (elemlib elem : string) (info : ElementInfo) (fact : Builder)
    (w w1 wb : World) (ret : Object) :
  prepare elemLoader type w = Ret (elemlib, elem) w1 →
  resolve (subComponentInfo (eli w1)) (subComponentBuilders (eli w1))
    elemlib elem elem = Some (info, fact) →
  create fact params (pushed params (getParamNames info) w1) = Ret ret wb →
  CreateSubComponent elemLoader create type comp params w
  = Ret ret (popped params wb)
  ∧ scope (pushed params (getParamNames info) w1) params
    = (getParamNames info ::.) <$> scope w1 params.
Proof.
  intros (w0 & E0 & E1)%prepare_inv Hres Hcreate. split.
  - unfold CreateSubComponent. run. rewrite E0, E1, Hres.
    unfold params_pushAllowedKeys, params_popAllowedKeys. run.
    fold (pushed params (getParamNames info) w1). by rewrite Hcreate.
  - unfold scope, pushed. simpl. rewrite lookup_alter_eq.
    by destruct (heap w1 !! params).
Qed.

(** X12.  On a hit, [CreateComponent] installs the declared port patterns
    of the component in the link map of its id and records the type in
    [loadingComponentType] before it enters the builder. *)
Theorem CreateComponent_hit (id : nat) (type : string) (params : nat)
    (elemlib elem : string) (info : ElementInfo) (fact : Builder)
    (ports : list string) (w w1 wb : World) (ret : Object) :
  prepare elemLoader type w = Ret (elemlib, elem) w1 →
  resolve (componentInfo (eli w1)) (componentBuilders (eli w1))
    elemlib elem elem = Some (info, fact) →
  linkMaps w1 !! id = Some ports →
  create fact params
    (pushed params (getParamNames info)
       (set_loadingComponentType type
          (set_linkMaps <[id := getPortnames info]> w1))) = Ret ret wb →
  CreateComponent elemLoader create id type params w
  = Ret ret (set_loadingComponentType "" (popped params wb)).
Proof.
  intros (w0 & E0 & E1)%prepare_inv Hres Hlm Hcreate.
  unfold CreateComponent. run. rewrite E0, E1, Hres.
  unfold setAllowedPorts, params_pushAllowedKeys, params_popAllowedKeys. run.
  rewrite Hlm.
  fold (pushed params (getParamNames info)
          (set_loadingComponentType type
             (set_linkMaps <[id := getPortnames info]> w1))).
  by rewrite Hcreate.
Qed.

End MoreCreation.

(** X14.  [getPythonModule] looks the builder up under the name of the
    library and hands it the name of the library, whatever the element part
    of the name is. *)
Theorem getPythonModule_builder_key (lib elem : string) (w : World)
    (infos : gmap string ElementInfo) (info : ElementInfo) :
  ¬ has_separator lib →
  getLibrary (pythonModuleInfo (eli w)) lib = Some infos →
  getInfo infos elem = Some info →
  getPythonModule (lib +:+ "." +:+ elem) w
  = Ret ((λ fact, fact lib)
           <$> (getLibrary (pythonModuleBuilders (eli w)) lib
                ≫= λ builders, getBuilder builders lib)) w.
Proof.
  intros Hlib Hinfos Hinfo. unfold getPythonModule. run.
  unfold parseLoadName.
  change (lib +:+ "." +:+ elem) with (lib +:+ String "." elem).
  rewrite find_first_of_app by done. cbv zeta.
  rewrite substring_prefix, length_app_String, substring_suffix,
    substring_all.
  run. unfold resolve. rewrite Hinfos. simpl. rewrite Hinfo. simpl.
  destruct (getLibrary (pythonModuleBuilders (eli w)) lib) as [builders|];
    simpl; [|done].
  by destruct (getBuilder builders lib).
Qed.

Lemma CreateComponent_clears_type_witness :
  ∃ ret w',
    CreateComponent no_libraries plain_create 7 "net.nic" 0
      (set_loadingComponentType "net.switch" net_world) = Ret ret w'
    ∧ loadingComponentType w' = "".
Proof.
  assert (∃ ret w',
            CreateComponent no_libraries plain_create 7 "net.nic" 0
              (set_loadingComponentType "net.switch" net_world) = Ret ret w')
    as (ret & w' & E).
  { eexists _, _. vm_compute. reflexivity. }
  exists ret, w'. split; [exact E|].
  exact (CreateComponent_clears_type no_libraries plain_create 7 "net.nic" 0
           _ w' ret E).
Defined.

Lemma CreateSubComponent_hit_witness :
  ∃ wb,
    CreateSubComponent no_libraries plain_create "net.leaf" 7 0 net_world
    = Ret (Inst "leaf" []) (popped 0 wb).
Proof.
  eexists.
  refine (proj1 (CreateSubComponent_hit no_libraries plain_create "net.leaf"
            7 0 "net" "leaf" (mkElementInfo {["depth"]} [] [] [])
            (mkBuilder "leaf" []) net_world net_world _ (Inst "leaf" [])
            _ _ _)).
  - vm_compute. reflexivity.
  - vm_compute. reflexivity.
  - reflexivity.
Defined.

Lemma CreateComponent_hit_witness :
  ∃ wb,
    CreateComponent no_libraries plain_create 7 "net.nic" 0 net_world
    = Ret (Inst "nic" []) (set_loadingComponentType "" (popped 0 wb)).
Proof.
  eexists.
  refine (CreateComponent_hit no_libraries plain_create 7 "net.nic" 0
            "net" "nic" (mkElementInfo {["id"]} ["port%d"] ["router"] [])
            (mkBuilder "nic" [(ConsSubComponent "net.router" 7, TheParams)])
            [] net_world net_world _ (Inst "nic" []) _ _ _ _).
  - vm_compute. reflexivity.
  - vm_compute. reflexivity.
  - vm_compute. reflexivity.
  - reflexivity.
Defined.

Lemma getPythonModule_builder_key_witness :
  getPythonModule "merlin.topo" bridge_world
  = Ret (Some (Inst "merlin" [])) bridge_world.
Proof.
  refine (getPythonModule_builder_key "merlin" "topo" bridge_world
            {["topo" := mkElementInfo ∅ [] [] []]} (mkElementInfo ∅ [] [] [])
            _ _ _).
  - apply (bool_decide_unpack _). vm_compute. reflexivity.
  - vm_compute. reflexivity.
  - vm_compute. reflexivity.
Defined.

(** ** More on port validation and the statistic and slot queries *)

Lemma hasStatname_elem_of names statisticName :
  hasStatname names statisticName = bool_decide (statisticName ∈ names).
Proof.
  induction names as [|item rest IH]; simpl; [done|].
  - destruct (decide (statisticName = item)) as [->|Hne].
    + rewrite bool_decide_true; [done | left].
    + rewrite IH. apply bool_decide_ext. rewrite elem_of_cons.
      split; [by right | by intros [|]].
Qed.

Lemma findEnableLevel_first pre item post statisticName :
  (∀ i, i ∈ pre → stat_name i ≠ statisticName) →
  stat_name item = statisticName →
  findEnableLevel (pre ++ item :: post) statisticName
  = Some (stat_enableLevel item).
Proof.
  intros Hpre Hitem. induction pre as [|i pre IH]; simpl.
  - by rewrite decide_True.
  - rewrite decide_False; [|intros E; by apply (Hpre i); [left|]].
    apply IH. intros j Hj. apply Hpre. by right.
Qed.

Lemma findUnits_first pre item post statisticName :
  (∀ i, i ∈ pre → stat_name i ≠ statisticName) →
  stat_name item = statisticName →
  findUnits (pre ++ item :: post) statisticName = Some (stat_units item).
Proof.
  intros Hpre Hitem. induction pre as [|i pre IH]; simpl.
  - by rewrite decide_True.
  - rewrite decide_False; [|intros E; by apply (Hpre i); [left|]].
    apply IH. intros j Hj. apply Hpre. by right.
Qed.

Lemma findUnits_None stats statisticName :
  (∀ item, item ∈ stats → stat_name item ≠ statisticName) →
  findUnits stats statisticName = None.
Proof.
  induction stats as [|item rest IH]; simpl; intros H; [done|].
  rewrite decide_False; [|intros E; by apply (H item); [left|]].
  apply IH. intros i Hi. apply H. by right.
Qed.

Lemma scanPorts_exists ports port_name w :
  (∀ p, p ∈ ports → ∃ b, checkPort p port_name = Got b) →
  ∃ b, scanPorts ports port_name w = Ret b w
       ∧ (b = true ↔ ∃ p, p ∈ ports ∧ checkPort p port_name = Got true).
Proof.
  induction ports as [|p rest IH]; intros Hall; simpl.
  - exists false. split; [done|]. split; [done|].
    intros (p & Hp & _). by apply elem_of_nil in Hp.
  - destruct (Hall p) as [b Hb]; [left|]. run. rewrite Hb. simpl.
    destruct b.
    + exists true. split; [done|]. split; [|done].
      intros _. exists p. split; [left | done].
    + destruct IH as (b & Hscan & Hiff).
      { intros q Hq. apply Hall. by right. }
      exists b. split; [done|]. rewrite Hiff. split.
      * intros (q & Hq & Hacc). exists q. split; [by right | done].
      * intros (q & [->|Hq]%elem_of_cons & Hacc); [congruence|]. eauto.
Qed.

Section MoreQueries.

Variable elemLoader : string → bool → ELI → bool * ELI.
Variable showErrors_default : bool.
Variable getStatnames : ElementInfo → list string.

(** X15.  For a component type of a loaded library, [isPortNameValid]
    returns true exactly if one of the patterns the component declares
    accepts the name, provided no declared pattern makes [checkPort] read
    past its end; the state is left as it is. *)
Theorem isPortNameValid_component_ports (type port_name elemlib elem : string)
    (lib : gmap string ElementInfo) (info : ElementInfo) (w : World) :
  parseLoadName type w = Ret (elemlib, elem) w →
  elemlib ∈ loaded_libraries w →
  getLibrary (componentInfo (eli w)) elemlib = Some lib →
  getInfo lib elem = Some info →
  (∀ p, p ∈ getPortnames info → ∃ b, checkPort p port_name = Got b) →
  ∃ b, isPortNameValid elemLoader showErrors_default type port_name w
       = Ret b w
       ∧ (b = true ↔ ∃ p, p ∈ getPortnames info
                          ∧ checkPort p port_name = Got true).
Proof.
  intros Hparse Hin Hlib Hinfo Hall.
  rewrite (isPortNameValid_component elemLoader showErrors_default
             type port_name elemlib elem lib info w) by done.
  by apply scanPorts_exists.
Qed.

(** X16.  For a type whose library has no component table,
    [isPortNameValid] dereferences a null pointer instead of reporting the
    unknown type, unless the sub-component table of the library has an
    element named like the library. *)
Theorem isPortNameValid_null_library (type port_name elemlib elem : string)
    (w : World) :
  parseLoadName type w = Ret (elemlib, elem) w →
  elemlib ∈ loaded_libraries w →
  getLibrary (componentInfo (eli w)) elemlib = None →
  (getLibrary (subComponentInfo (eli w)) elemlib
   ≫= λ lib, getInfo lib elemlib) = None →
  isPortNameValid elemLoader showErrors_default type port_name w
  = Undef NullDereference w.
Proof.
  intros Hparse Hin Hcomp Hsub. unfold isPortNameValid. run.
  rewrite Hparse. rewrite bool_decide_true by done. rewrite Hcomp.
  destruct (getLibrary (subComponentInfo (eli w)) elemlib) as [lib|];
    simpl in Hsub; [|done].
  by rewrite Hsub.
Qed.

(** X17.  For a component type of a loaded library,
    [GetComponentInfoStatisticEnableLevel] returns the enable level of the
    first statistic declared under the name, and 0, without a diagnostic,
    when no statistic is declared under it. *)
Theorem enableLevel_component (type statisticName elemlib elem : string)
    (lib : gmap string ElementInfo) (info : ElementInfo) (w : World) :
  type ≠ "" →
  parseLoadName type w = Ret (elemlib, elem) w →
  elemlib ∈ loaded_libraries w →
  getLibrary (componentInfo (eli w)) elemlib = Some lib →
  getInfo lib elem = Some info →
  (∀ pre item post,
     getValidStats info = pre ++ item :: post →
     (∀ i, i ∈ pre → stat_name i ≠ statisticName) →
     stat_name item = statisticName →
     GetComponentInfoStatisticEnableLevel elemLoader type statisticName w
     = Ret (stat_enableLevel item) w)
  ∧ ((∀ item, item ∈ getValidStats info → stat_name item ≠ statisticName) →
     GetComponentInfoStatisticEnableLevel elemLoader type statisticName w
     = Ret 0%Z w).
Proof.
  intros Hne Hparse Hin Hlib Hinfo.
  rewrite (enableLevel_of_component elemLoader type statisticName
             elemlib elem lib info w) by done.
  split.
  - intros pre item post -> Hpre Hitem.
    by rewrite findEnableLevel_first.
  - intros Hnone. apply findEnableLevel_None in Hnone. by rewrite Hnone.
Qed.

(** X18.  [DoesSubComponentSlotExist] is fatal only for a library that has
    neither a component nor a sub-component table.  In a library with a
    component table it answers for the component of that name, and false
    for any other element; the sub-component table is looked at only when
    there is no component table. *)
Theorem DoesSubComponentSlotExist_cases (type slotName elemlib elem : string)
    (w : World) :
  parseLoadName type w = Ret (elemlib, elem) w →
  elemlib ∈ loaded_libraries w →
  (∀ lib, getLibrary (componentInfo (eli w)) elemlib = Some lib →
     DoesSubComponentSlotExist elemLoader type slotName w
     = Ret (match getInfo lib elem with
            | Some info => bool_decide (slotName ∈ getSubComponentSlots info)
            | None => false
            end) w)
  ∧ (∀ lib, getLibrary (componentInfo (eli w)) elemlib = None →
       getLibrary (subComponentInfo (eli w)) elemlib = Some lib →
       DoesSubComponentSlotExist elemLoader type slotName w
       = Ret (match getInfo lib elem with
              | Some info =>
                  bool_decide (slotName ∈ getSubComponentSlots info)
              | None => false
              end) w)
  ∧ (getLibrary (componentInfo (eli w)) elemlib = None →
     getLibrary (subComponentInfo (eli w)) elemlib = None →
     DoesSubComponentSlotExist elemLoader type slotName w
     = Fatal ("can't find requested component/subcomponent '" +:+ type
                +:+ "'") w).
Proof.
  intros Hparse Hin.
  unfold DoesSubComponentSlotExist. repeat split.
  - intros lib Hlib. run. rewrite Hparse, requireLibrary_loaded by done.
    by rewrite Hlib.
  - intros lib Hnone Hlib. run.
    rewrite Hparse, requireLibrary_loaded by done. by rewrite Hnone, Hlib.
  - intros Hnone Hnone'. run.
    rewrite Hparse, requireLibrary_loaded by done. by rewrite Hnone, Hnone'.
Qed.

(** X19.  [DoesComponentInfoStatisticNameExist] answers for registered
    components only: it returns whether the name is among the statistic
    names of the component, and ends the process for every other type, a
    registered sub-component included;
    [DoesSubComponentInfoStatisticNameExist] does the same with the roles
    exchanged. *)
Theorem StatisticNameExist_cases (type statisticName elemlib elem : string)
    (w : World) :
  type ≠ "" →
  parseLoadName type w = Ret (elemlib, elem) w →
  elemlib ∈ loaded_libraries w →
  (∀ info,
     (getLibrary (componentInfo (eli w)) elemlib
      ≫= λ lib, getInfo lib elem) = Some info →
     DoesComponentInfoStatisticNameExist elemLoader getStatnames
       type statisticName w
     = Ret (bool_decide (statisticName ∈ getStatnames info)) w)
  ∧ ((getLibrary (componentInfo (eli w)) elemlib
      ≫= λ lib, getInfo lib elem) = None →
     DoesComponentInfoStatisticNameExist elemLoader getStatnames
       type statisticName w
     = Fatal ("can't find requested component '" +:+ type +:+ "'") w)
  ∧ (∀ info,
       (getLibrary (subComponentInfo (eli w)) elemlib
        ≫= λ lib, getInfo lib elem) = Some info →
       DoesSubComponentInfoStatisticNameExist elemLoader getStatnames
         type statisticName w
       = Ret (bool_decide (statisticName ∈ getStatnames info)) w)
  ∧ ((getLibrary (subComponentInfo (eli w)) elemlib
      ≫= λ lib, getInfo lib elem) = None →
     DoesSubComponentInfoStatisticNameExist elemLoader getStatnames
       type statisticName w
     = Fatal ("can't find requested subcomponent '" +:+ type +:+ "'") w).
Proof.
  intros Hne Hparse Hin.
  unfold DoesComponentInfoStatisticNameExist,
    DoesSubComponentInfoStatisticNameExist, compTypeToLoad.
  rewrite decide_False by done. repeat split.
  - intros info Hinfo. run. rewrite Hparse, requireLibrary_loaded by done.
    revert Hinfo.
    destruct (getLibrary (componentInfo (eli w)) elemlib) as [lib|]; simpl;
      [|done].
    intros ->. by rewrite hasStatname_elem_of.
  - intros Hnone. run. rewrite Hparse, requireLibrary_loaded by done.
    revert Hnone.
    destruct (getLibrary (componentInfo (eli w)) elemlib) as [lib|]; simpl;
      [|done].
    by intros ->.
  - intros info Hinfo. run. rewrite Hparse, requireLibrary_loaded by done.
    revert Hinfo.
    destruct (getLibrary (subComponentInfo (eli w)) elemlib) as [lib|]; simpl;
      [|done].
    intros ->. by rewrite hasStatname_elem_of.
  - intros Hnone. run. rewrite Hparse, requireLibrary_loaded by done.
    revert Hnone.
    destruct (getLibrary (subComponentInfo (eli w)) elemlib) as [lib|]; simpl;
      [|done].
    by intros ->.
Qed.

(** X20.  In a library with a component table,
    [GetComponentInfoStatisticUnits] returns the units of the first
    statistic the component declares under the name; for a name the
    component does not declare, and for an element that is not a component
    of the library, it constructs the returned string from a null
    pointer. *)
Theorem GetComponentInfoStatisticUnits_cases
    (type statisticName elemlib elem : string)
    (lib : gmap string ElementInfo) (w : World) :
  type ≠ "" →
  parseLoadName type w = Ret (elemlib, elem) w →
  elemlib ∈ loaded_libraries w →
  getLibrary (componentInfo (eli w)) elemlib = Some lib →
  (∀ info pre item post,
     getInfo lib elem = Some info →
     getValidStats info = pre ++ item :: post →
     (∀ i, i ∈ pre → stat_name i ≠ statisticName) →
     stat_name item = statisticName →
     GetComponentInfoStatisticUnits elemLoader showErrors_default
       type statisticName w
     = Ret (stat_units item) w)
  ∧ (∀ info,
       getInfo lib elem = Some info →
       (∀ item, item ∈ getValidStats info →
                stat_name item ≠ statisticName) →
       GetComponentInfoStatisticUnits elemLoader showErrors_default
         type statisticName w
       = Undef NullDereference w)
  ∧ (getInfo lib elem = None →
     GetComponentInfoStatisticUnits elemLoader showErrors_default
       type statisticName w
     = Undef NullDereference w).
Proof.
  intros Hne Hparse Hin Hlib.
  unfold GetComponentInfoStatisticUnits, compTypeToLoad.
  rewrite decide_False by done. repeat split.
  - intros info pre item post Hinfo Hstats Hpre Hitem. run.
    rewrite Hparse. rewrite bool_decide_true by done. rewrite Hlib, Hinfo.
    simpl. rewrite Hstats. by rewrite findUnits_first.
  - intros info Hinfo Hnone. run.
    rewrite Hparse. rewrite bool_decide_true by done. rewrite Hlib, Hinfo.
    simpl. by rewrite findUnits_None.
  - intros Hnone. run.
    rewrite Hparse. rewrite bool_decide_true by done. rewrite Hlib, Hnone.
    done.
Qed.

End MoreQueries.

Lemma isPortNameValid_component_ports_witness :
  ∃ b, isPortNameValid no_libraries true "memHierarchy.Cache" "cpu_link_3"
         memHierarchy_loaded = Ret b memHierarchy_loaded
       ∧ (b = true ↔ ∃ p, p ∈ getPortnames cache_info
                          ∧ checkPort p "cpu_link_3" = Got true).
Proof.
  apply (isPortNameValid_component_ports no_libraries true
           "memHierarchy.Cache" "cpu_link_3" "memHierarchy" "Cache"
           {["Cache" := cache_info]} cache_info memHierarchy_loaded).
  - vm_compute. reflexivity.
  - apply (bool_decide_unpack _). vm_compute. reflexivity.
  - vm_compute. reflexivity.
  - vm_compute. reflexivity.
  - intros p Hp.
    repeat (apply elem_of_cons in Hp as [->|Hp];
            [eexists; vm_compute; reflexivity|]).
    by apply elem_of_nil in Hp.
Defined.

Lemma isPortNameValid_null_library_witness :
  isPortNameValid no_libraries true "merlin.hr_router" "port0" merlin_loaded
  = Undef NullDereference merlin_loaded.
Proof.
  apply (isPortNameValid_null_library no_libraries true "merlin.hr_router"
           "port0" "merlin" "hr_router" merlin_loaded).
  - vm_compute. reflexivity.
  - apply (bool_decide_unpack _). vm_compute. reflexivity.
  - vm_compute. reflexivity.
  - vm_compute. reflexivity.
Defined.

Lemma enableLevel_component_witness :
  GetComponentInfoStatisticEnableLevel no_libraries "memHierarchy.Cache"
    "misses" memHierarchy_loaded = Ret 2%Z memHierarchy_loaded
  ∧ GetComponentInfoStatisticEnableLevel no_libraries "memHierarchy.Cache"
      "hits" memHierarchy_loaded = Ret 0%Z memHierarchy_loaded.
Proof.
  split.
  - refine (proj1 (enableLevel_component no_libraries "memHierarchy.Cache"
              "misses" "memHierarchy" "Cache" {["Cache" := cache_info]}
              cache_info memHierarchy_loaded _ _ _ _ _)
              [] (mkStatisticInfo "misses" 2 "count") [] _ _ _);
      first [ by intros [=] | by intros i Hi%elem_of_nil
            | apply (bool_decide_unpack _); vm_compute; reflexivity
            | vm_compute; reflexivity ].
  - refine (proj2 (enableLevel_component no_libraries "memHierarchy.Cache"
              "hits" "memHierarchy" "Cache" {["Cache" := cache_info]}
              cache_info memHierarchy_loaded _ _ _ _ _) _).
    1-5: first [ by intros [=]
               | apply (bool_decide_unpack _); vm_compute; reflexivity
               | vm_compute; reflexivity ].
    intros item Hitem.
    apply elem_of_cons in Hitem as [->|Hitem]; [by intros [=]|].
    by apply elem_of_nil in Hitem.
Defined.

Lemma DoesSubComponentSlotExist_cases_witness :
  DoesSubComponentSlotExist no_libraries "memHierarchy.Cache" "prefetcher"
    memHierarchy_loaded = Ret true memHierarchy_loaded
  ∧ DoesSubComponentSlotExist no_libraries "memHierarchy.unknown" "prefetcher"
      memHierarchy_loaded = Ret false memHierarchy_loaded.
Proof.
  split.
  - refine (proj1 (DoesSubComponentSlotExist_cases no_libraries
              "memHierarchy.Cache" "prefetcher" "memHierarchy" "Cache"
              memHierarchy_loaded _ _) {["Cache" := cache_info]} _).
    + vm_compute. reflexivity.
    + apply (bool_decide_unpack _). vm_compute. reflexivity.
    + vm_compute. reflexivity.
  - refine (proj1 (DoesSubComponentSlotExist_cases no_libraries
              "memHierarchy.unknown" "prefetcher" "memHierarchy" "unknown"
              memHierarchy_loaded _ _) {["Cache" := cache_info]} _).
    + vm_compute. reflexivity.
    + apply (bool_decide_unpack _). vm_compute. reflexivity.
    + vm_compute. reflexivity.
Defined.

Lemma StatisticNameExist_cases_witness :
  DoesSubComponentInfoStatisticNameExist no_libraries names_of_stats
    "memHierarchy.prefetcher" "hits" memHierarchy_loaded
  = Ret true memHierarchy_loaded
  ∧ DoesComponentInfoStatisticNameExist no_libraries names_of_stats
      "memHierarchy.prefetcher" "hits" memHierarchy_loaded
    = Fatal "can't find requested component 'memHierarchy.prefetcher'"
        memHierarchy_loaded.
Proof.
  pose proof (StatisticNameExist_cases no_libraries names_of_stats
                "memHierarchy.prefetcher" "hits" "memHierarchy" "prefetcher"
                memHierarchy_loaded
                ltac:(by intros [=])
                ltac:(vm_compute; reflexivity)
                ltac:(apply (bool_decide_unpack _); vm_compute; reflexivity))
    as (_ & Hcomp & Hsub & _).
  split.
  - apply (Hsub prefetcher_info). vm_compute. reflexivity.
  - apply Hcomp. vm_compute. reflexivity.
Defined.

Lemma GetComponentInfoStatisticUnits_cases_witness :
  GetComponentInfoStatisticUnits no_libraries true "memHierarchy.Cache"
    "misses" memHierarchy_loaded = Ret "count" memHierarchy_loaded
  ∧ GetComponentInfoStatisticUnits no_libraries true "memHierarchy.prefetcher"
      "hits" memHierarchy_loaded = Undef NullDereference memHierarchy_loaded.
Proof.
  split.
  - refine (proj1 (GetComponentInfoStatisticUnits_cases no_libraries true
              "memHierarchy.Cache" "misses" "memHierarchy" "Cache"
              {["Cache" := cache_info]} memHierarchy_loaded _ _ _ _)
              cache_info [] (mkStatisticInfo "misses" 2 "count") [] _ _ _ _);
      first [ by intros [=] | by intros i Hi%elem_of_nil
            | apply (bool_decide_unpack _); vm_compute; reflexivity
            | vm_compute; reflexivity ].
  - refine (proj2 (proj2 (GetComponentInfoStatisticUnits_cases no_libraries
              true "memHierarchy.prefetcher" "hits" "memHierarchy"
              "prefetcher" {["Cache" := cache_info]} memHierarchy_loaded
              _ _ _ _)) _);
      first [ by intros [=]
            | apply (bool_decide_unpack _); vm_compute; reflexivity
            | vm_compute; reflexivity ].
Defined.

Section EmptyType.

Variable elemLoader : string → bool → ELI → bool * ELI.
Variable create : Builder → nat → M Object.

(** X21.  Unlike [CreateModule], [CreateSubComponent] does not test for the
    empty type string: it logs the advisory of the parser, asks the loader
    for the library with the empty name, and then ends the process with
    its own diagnostic unless an element with the empty name is registered
    in a library with the empty name. *)
Theorem CreateSubComponent_empty_type (comp params : nat) (w : World) :
  "" ∉ loaded_libraries w →
  ∃ w1,
    prepare elemLoader "" w = Ret ("", "") w1
    ∧ messages w1 = messages w ++ [Output empty_name_warning]
    ∧ loaderCalls w1 = loaderCalls w ++ [("", true)]
    ∧ (resolve (subComponentInfo (eli w1)) (subComponentBuilders (eli w1))
         "" "" "" = None →
       CreateSubComponent elemLoader create "" comp params w
       = Fatal "can't find requested subcomponent ''" w1).
Proof.
  intros Hnot.
  set (w0 := log_message (Output empty_name_warning) w).
  assert (parseLoadName "" w = Ret ("", "") w0) as E0 by reflexivity.
  assert (∃ w1, requireLibrary elemLoader "" w0 = Ret () w1
                ∧ messages w1 = messages w0
                ∧ loaderCalls w1 = loaderCalls w0 ++ [("", true)])
    as (w1 & E1 & Hm & Hl).
  { unfold requireLibrary. rewrite decide_False by done. run.
    rewrite findLibrary_run, bool_decide_false by done.
    rewrite loadLibrary_run. cbv zeta.
    case_bool_decide; by eexists. }
  exists w1. split; [by apply prepare_run with w0|].
  split; [done|]. split; [done|].
  intros Hmiss. unfold CreateSubComponent. run. rewrite E0, E1.
  by rewrite Hmiss.
Qed.

End EmptyType.

Lemma CreateSubComponent_empty_type_witness :
  ∃ w1,
    CreateSubComponent no_libraries plain_create "" 0 0 memHierarchy_loaded
    = Fatal "can't find requested subcomponent ''" w1
    ∧ loaderCalls w1 = [("memHierarchy", true); ("", true)].
Proof.
  destruct (CreateSubComponent_empty_type no_libraries plain_create 0 0
              memHierarchy_loaded
              ltac:(apply (bool_decide_unpack _); vm_compute; reflexivity))
    as (w1 & Eprep & _ & Hcalls & Hfatal).
  exists w1. split; [|exact Hcalls].
  apply Hfatal. vm_compute in Eprep. injection Eprep as <-.
  vm_compute. reflexivity.
Defined.

(** X22.  The loop of [checkPort] ends on every pair of strings, within as
    many iterations as the buffer of the pattern has characters: a call
    returns true or false, or reads past the end of a buffer. *)
Theorem checkPort_terminates (def offered : string) :
  checkPort def offered = PastEnd ∨ ∃ b, checkPort def offered = Got b.
Proof.
  pose proof (checkPort_fuel def offered) as Hfuel.
  destruct (checkPort def offered) as [b| |]; [by right; exists b | by left|].
  done.
Qed.
